(** * Wallet transaction ledger and coin amount formatting

    A shallow embedding of two TypeScript sources:

    - the [Coin] utility class of the SDK ([COIN_DENOMINATIONS],
      [Coin.getCoinSymbol], [Coin.getCoinTypeArg], [Coin.getFormatData],
      [Coin.fromInput]);
    - the wallet's [txresults] Redux slice ([deduplicate],
      [getCreatedObjectID], the [getTransactionsByAddress] thunk and the
      three reducers of [txSlice]).

    JavaScript [number]s are IEEE 754 binary64 values; they are modelled by
    the standard library's [spec_float] at precision 53 and maximal exponent
    1024.  [bigint]s are modelled by [Z].  A string is modelled by the bytes
    of its UTF-8 encoding: a character of the ASCII range is one byte, and
    the characters beyond it that the code tells apart (white space, the
    line and paragraph separators) are the byte sequences that encode
    them. *)

From Stdlib Require Import ZArith QArith Qround Lia Bool Ascii String.
From Stdlib Require Import Floats.SpecFloat.
From stdpp Require Import base option list gmap strings sorting.

Local Open Scope string_scope.
Local Open Scope list_scope.
Local Open Scope Z_scope.

(* ===================================================================== *)
(** * JavaScript numbers *)
(* ===================================================================== *)

Module JS.

(** ** Exceptions and fallible computations *)

(** The message of an error: the text that a collaborator gave, or, for an
    exception of the language itself, the text of the engine, which the
    language does not fix. *)
Inductive Message :=
| message_text (text : string)
| engine_message.

(** The fields of a serialized error, as Redux Toolkit hands them to a
    [rejected] reducer: [{ code, name, message }]. *)
Record SerializedError := {
  err_code : option string;
  err_name : option string;
  err_message : option Message;
}.

(** The two exceptions of the language that the code can raise; they have
    no [code]. *)
Definition TypeError : SerializedError :=
  {| err_code := None; err_name := Some "TypeError";
     err_message := Some engine_message |}.

Definition RangeError : SerializedError :=
  {| err_code := None; err_name := Some "RangeError";
     err_message := Some engine_message |}.

(** A computation that returns a value or throws. *)
Inductive Result (A : Type) : Type :=
| Ok (a : A)
| Throw (e : SerializedError).
Arguments Ok {A} a.
Arguments Throw {A} e.

Definition bind {A B} (m : Result A) (k : A -> Result B) : Result B :=
  match m with
  | Ok a => k a
  | Throw e => Throw e
  end.

(** [xs.map(f)] where [f] may throw: the first exception aborts the map. *)
Fixpoint mapM {A B} (f : A -> Result B) (xs : list A) : Result (list B) :=
  match xs with
  | [] => Ok []
  | x :: xs' =>
      bind (f x) (fun y => bind (mapM f xs') (fun ys => Ok (y :: ys)))
  end.

(** ** Numbers *)

Definition Number : Type := spec_float.

Definition prec : Z := 53.
Definition emax : Z := 1024.

Definition NaN : Number := S754_nan.

Definition isFinite (x : Number) : bool :=
  match x with S754_zero _ | S754_finite _ _ _ => true | _ => false end.

(** [Number(b)] for a bigint [b]: the nearest binary64 value, ties to
    even, infinite on overflow. *)
Definition ofBigInt (b : Z) : Number := binary_normalize prec emax b 0 false.

Definition mul (x y : Number) : Number := SFmul prec emax x y.
Definition div (x y : Number) : Number := SFdiv prec emax x y.

(** [x < y] on numbers: false as soon as one side is [NaN]. *)
Definition ltb (x y : Number) : bool := SFltb x y.

(** ToBoolean on a number: [NaN], [+0] and [-0] are falsy. *)
Definition truthy (x : Number) : bool :=
  match x with
  | S754_nan | S754_zero _ => false
  | _ => true
  end.

(** The value of the decimal literal [(-1)^neg * digits * 10^exp10],
    rounded once to the nearest binary64 value (ties to even).  For a
    negative exponent the quotient [digits / 10^(-exp10)] is computed with
    its rounding location, as a correctly rounded division does. *)
Definition ofDecimal (neg : bool) (digits : Z) (exp10 : Z) : Number :=
  match digits with
  | Zpos d =>
      if 0 <=? exp10
      then binary_round prec emax neg (d * Z.to_pos (10 ^ exp10))%positive 0
      else
        let '(q, e, l) :=
          SFdiv_core_binary prec emax (Zpos d) 0 (10 ^ (- exp10)) 0 in
        binary_round_aux prec emax neg q e l
  | _ => S754_zero neg
  end.

(** The signed mantissa of a finite number. *)
Definition signed (s : bool) (m : positive) : Z := cond_Zopp s (Zpos m).

(** [b < y] for a bigint [b] and a number [y]: the comparison of the two
    mathematical values; false against [NaN]. *)
Definition BigInt_lt_Number (b : Z) (y : Number) : bool :=
  match y with
  | S754_nan => false
  | S754_infinity s => negb s
  | S754_zero _ => b <? 0
  | S754_finite s m e =>
      if 0 <=? e then b <? signed s m * 2 ^ e
      else b * 2 ^ (- e) <? signed s m
  end.

(** [Math.round(x)]: [x] itself when it is not finite or already integral;
    otherwise the integral number closest to [x], the one closer to
    [+Infinity] in case of a tie.  A result of magnitude zero keeps the
    sign of [x]. *)
Definition Math_round (x : Number) : Number :=
  match x with
  | S754_finite s m e =>
      if 0 <=? e then x
      else
        let k := - e in
        let n := Z.shiftr (signed s m + 2 ^ (k - 1)) k in
        if n =? 0 then S754_zero s else ofBigInt n
  | _ => x
  end.

(** [BigInt(x)] for a number [x]: the exact integer when [x] is integral,
    a [RangeError] otherwise ([NaN], the infinities, fractions). *)
Definition toBigInt (x : Number) : Result Z :=
  match x with
  | S754_zero _ => Ok 0
  | S754_finite s m e =>
      if 0 <=? e then Ok (signed s m * 2 ^ e)
      else if Zpos m mod 2 ^ (- e) =? 0
           then Ok (signed s m / 2 ^ (- e))
           else Throw RangeError
  | _ => Throw RangeError
  end.

(** The exact rational value of a finite number (0 for the others). *)
Definition toQ (x : Number) : Q :=
  match x with
  | S754_finite s m e =>
      if 0 <=? e then inject_Z (signed s m * 2 ^ e)
      else Qmake (signed s m) (Z.to_pos (2 ^ (- e)))
  | _ => 0%Q
  end.

(** ** [parseFloat] *)

(** The code of a byte. *)
Definition byteOf (a : ascii) : Z := Z.of_nat (nat_of_ascii a).

(** StrWhiteSpaceChar, the white space and the line terminators that
    [parseFloat] skips in front of the literal.  In the ASCII range: TAB,
    LF, VT, FF, CR and SP. *)
Definition isWhiteSpace (a : ascii) : bool :=
  let n := byteOf a in
  ((9 <=? n) && (n <=? 13)) || (n =? 32).

(** Beyond the ASCII range, in two bytes: U+00A0. *)
Definition isWhiteSpace2 (a b : ascii) : bool :=
  (byteOf a =? 194) && (byteOf b =? 160).

(** In three bytes: U+1680; U+2000 to U+200A, U+2028, U+2029 and U+202F;
    U+205F; U+3000; U+FEFF. *)
Definition isWhiteSpace3 (a b c : ascii) : bool :=
  ((byteOf a =? 225) && (byteOf b =? 154) && (byteOf c =? 128))
  || ((byteOf a =? 226) && (byteOf b =? 128)
      && (((128 <=? byteOf c) && (byteOf c <=? 138))
          || (byteOf c =? 168) || (byteOf c =? 169) || (byteOf c =? 175)))
  || ((byteOf a =? 226) && (byteOf b =? 129) && (byteOf c =? 159))
  || ((byteOf a =? 227) && (byteOf b =? 128) && (byteOf c =? 128))
  || ((byteOf a =? 239) && (byteOf b =? 187) && (byteOf c =? 191)).

(** The first bytes of these sequences. *)
Definition startsWhiteSpace (a : ascii) : bool :=
  (byteOf a =? 194) || (byteOf a =? 225) || (byteOf a =? 226)
  || (byteOf a =? 227) || (byteOf a =? 239).

(** The string without the white space in front of it. *)
Fixpoint trimStart (s : string) : string :=
  match s with
  | EmptyString => s
  | String a s1 =>
      if isWhiteSpace a then trimStart s1
      else if negb (startsWhiteSpace a) then s
      else
        match s1 with
        | EmptyString => s
        | String b s2 =>
            if isWhiteSpace2 a b then trimStart s2
            else
              match s2 with
              | EmptyString => s
              | String c s3 =>
                  if isWhiteSpace3 a b c then trimStart s3 else s
              end
        end
  end.

Definition digitValue (a : ascii) : option Z :=
  let n := Z.of_nat (nat_of_ascii a) in
  if (48 <=? n) && (n <=? 57) then Some (n - 48) else None.

(** Reads the longest run of decimal digits in front of [s], continuing
    the numeral [acc]; returns the numeral, the number of digits read and
    the rest of the string. *)
Fixpoint takeDigits (s : string) (acc : Z) (count : Z) : Z * Z * string :=
  match s with
  | String a s' =>
      match digitValue a with
      | Some d => takeDigits s' (10 * acc + d) (count + 1)
      | None => (acc, count, s)
      end
  | EmptyString => (acc, count, s)
  end.

(** An optional sign: [true] for ["-"]. *)
Definition takeSign (s : string) : bool * string :=
  match s with
  | String "-" s' => (true, s')
  | String "+" s' => (false, s')
  | _ => (false, s)
  end.

(** The exponent part [e[+-]digits]; it belongs to the literal only when
    at least one digit follows. *)
Definition takeExponent (s : string) : Z :=
  match s with
  | String a s' =>
      if (a =? "e")%char || (a =? "E")%char then
        let '(eneg, s'') := takeSign s' in
        let '(ev, n, _) := takeDigits s'' 0 0 in
        if n =? 0 then 0 else cond_Zopp eneg ev
      else 0
  | EmptyString => 0
  end.

(** What [parseFloat] recognises in front of a string. *)
Inductive StrDecimalLiteral :=
| Infinity_literal (neg : bool)
| Decimal_literal (neg : bool) (digits exp10 : Z).

(** The longest prefix of the trimmed string that is a StrDecimalLiteral:
    an optional sign, then [Infinity] or digits with an optional fraction
    and exponent; at least one digit is required. *)
Definition scanDecimalLiteral (s : string) : option StrDecimalLiteral :=
  let '(neg, s0) := takeSign (trimStart s) in
  if String.prefix "Infinity" s0 then Some (Infinity_literal neg)
  else
    let '(ip, ni, s1) := takeDigits s0 0 0 in
    let '(fp, nf, s2) :=
      match s1 with
      | String "." r => takeDigits r ip 0
      | _ => (ip, 0, s1)
      end in
    if ni + nf =? 0 then None
    else Some (Decimal_literal neg fp (takeExponent s2 - nf)).

(** [parseFloat(s)]: the literal in front of [s] rounded to a number;
    [NaN] when there is none. *)
Definition parseFloat (s : string) : Number :=
  match scanDecimalLiteral s with
  | Some (Infinity_literal neg) => S754_infinity neg
  | Some (Decimal_literal neg digits exp10) => ofDecimal neg digits exp10
  | None => NaN
  end.

End JS.

(* ===================================================================== *)
(** * The [Coin] utility class *)
(* ===================================================================== *)

Module Coin.
Import JS.

(** The numeric literals of the source. *)
Definition lit_1 : Number := ofDecimal false 1 0.
Definition lit_1e9 : Number := ofDecimal false 1 9.
Definition lit_1e_8 : Number := ofDecimal false 1 (-8).

(** [COIN_DENOMINATIONS: Record<string, number>]: one entry of its own. *)
Definition COIN_DENOMINATIONS : gmap string Number :=
  {[ "0x2::sui::SUI" := lit_1e9 ]}.

(** The table is an object literal: a key that is not its own is looked up
    in [Object.prototype], whose properties are these.  Each of them is a
    function, except [__proto__], which gives the prototype itself. *)
Definition Object_prototype : list string :=
  [ "constructor"; "__defineGetter__"; "__defineSetter__"; "hasOwnProperty";
    "__lookupGetter__"; "__lookupSetter__"; "isPrototypeOf";
    "propertyIsEnumerable"; "toString"; "valueOf"; "__proto__";
    "toLocaleString" ].

(** What [COIN_DENOMINATIONS[key]] evaluates to. *)
Inductive Property :=
| number_property (d : Number)
| object_property            (* a function or an object *)
| undefined_property.

Definition COIN_DENOMINATIONS_get (key : string) : Property :=
  match COIN_DENOMINATIONS !! key with
  | Some d => number_property d
  | None =>
      if bool_decide (key ∈ Object_prototype) then object_property
      else undefined_property
  end.

(** [property || 1]: a function or an object is truthy. *)
Definition or_one (p : Property) : Property :=
  match p with
  | number_property d => if truthy d then p else number_property lit_1
  | object_property => p
  | undefined_property => number_property lit_1
  end.

(** ToNumber: a function or an object of [Object.prototype] is converted
    through its string, which is no numeric literal. *)
Definition ToNumber (p : Property) : Number :=
  match p with
  | number_property d => d
  | _ => NaN
  end.

(** [b < p] for a bigint [b]: against a function or an object the
    comparison is with its string, which is no bigint literal, and the
    result is false. *)
Definition BigInt_lt (b : Z) (p : Property) : bool :=
  match p with
  | number_property d => BigInt_lt_Number b d
  | _ => false
  end.

Inductive Notation := standard | compact.

Record NumberFormatOptions := {
  notation : option Notation;
  minimumFractionDigits : option Z;
  maximumFractionDigits : option Z;
}.

Definition noOptions : NumberFormatOptions :=
  {| notation := None; minimumFractionDigits := None;
     maximumFractionDigits := None |}.

Definition set_maximumFractionDigits (n : Z) (o : NumberFormatOptions) :=
  {| notation := notation o;
     minimumFractionDigits := minimumFractionDigits o;
     maximumFractionDigits := Some n |}.

Definition set_notation (n : Notation) (o : NumberFormatOptions) :=
  {| notation := Some n;
     minimumFractionDigits := minimumFractionDigits o;
     maximumFractionDigits := maximumFractionDigits o |}.

(** The [mode] argument, of type ['accurate' | 'loose']. *)
Inductive Mode := accurate | loose.

Definition is_loose (m : Mode) : bool :=
  match m with loose => true | accurate => false end.

Record FormatData := {
  value : Number;
  symbol : string;
  formatOptions : NumberFormatOptions;
  forcedFormatValue : option string;
}.

(** [s.lastIndexOf(c)] for a one-character [c]: the index of the last
    occurrence, [-1] when there is none. *)
Fixpoint lastIndexOf_from (c : ascii) (s : string) (i found : Z) : Z :=
  match s with
  | EmptyString => found
  | String a s' =>
      lastIndexOf_from c s' (i + 1) (if (a =? c)%char then i else found)
  end.

Definition lastIndexOf (c : ascii) (s : string) : Z :=
  lastIndexOf_from c s 0 (-1).

(** [s.substring(start)]: the characters from index [start] on. *)
Fixpoint substring_from (start : nat) (s : string) : string :=
  match start, s with
  | S n, String _ s' => substring_from n s'
  | _, _ => s
  end.

(** [Coin.getCoinSymbol]. *)
Definition getCoinSymbol (coinTypeArg : string) : string :=
  substring_from (Z.to_nat (lastIndexOf ":" coinTypeArg + 1)) coinTypeArg.

(** The characters that [.] does not match are the line terminators.  In
    the ASCII range: LF and CR. *)
Definition isLineTerminator (a : ascii) : bool :=
  (a =? "010")%char || (a =? "013")%char.

(** Beyond it: U+2028 and U+2029, three bytes each. *)
Definition isLineSeparator (a b c : ascii) : bool :=
  (byteOf a =? 226) && (byteOf b =? 128)
  && ((byteOf c =? 168) || (byteOf c =? 169)).

Definition startsLineSeparator (s : string) : bool :=
  match s with
  | String a (String b (String c _)) => isLineSeparator a b c
  | _ => false
  end.

(** No line terminator starts at any position of the string. *)
Fixpoint noLineTerminator (s : string) : bool :=
  match s with
  | EmptyString => true
  | String a s' =>
      negb (isLineTerminator a) && negb (startsLineSeparator s)
      && noLineTerminator s'
  end.

(** Splits a non-empty string into its front and its last character. *)
Fixpoint unsnoc (s : string) : option (string * ascii) :=
  match s with
  | EmptyString => None
  | String a s' =>
      match unsnoc s' with
      | None => Some (EmptyString, a)
      | Some (front, z) => Some (String a front, z)
      end
  end.

(** [Coin.getCoinTypeArg] on the type string of an object: the capture
    group of [/^0x2::coin::Coin<(.+)>$/], [None] when the type is missing
    or does not match. *)
Definition getCoinTypeArg (type : option string) : option string :=
  match type with
  | None => None
  | Some t =>
      let p := "0x2::coin::Coin<" in
      if String.prefix p t then
        match unsnoc (substring_from (String.length p) t) with
        | Some (String a mid, ">"%char) =>
            if noLineTerminator (String a mid) then Some (String a mid)
            else None
        | _ => None
        end
      else None
  end.

(** [COIN_DENOMINATIONS[coinArgType] || 1]. *)
Definition denomination_of (coinArgType : string) : Property :=
  or_one (COIN_DENOMINATIONS_get coinArgType).

(** The denomination as the number by which the balance is divided. *)
Definition denominationOf (coinArgType : string) : Number :=
  ToNumber (denomination_of coinArgType).

(** [Coin.getFormatData]. *)
Definition getFormatData (balance : Z) (coinArgType : string) (mode : Mode)
  : FormatData :=
  let denomination := denomination_of coinArgType in
  let adjValue := div (ofBigInt balance) (ToNumber denomination) in
  let formatOptions := noOptions in
  let formatOptions :=
    match mode with
    | accurate => set_maximumFractionDigits 20 formatOptions
    | _ => formatOptions
    end in
  let formatOptions :=
    match mode with
    | loose =>
        if BigInt_lt balance denomination
        then set_maximumFractionDigits 8 formatOptions
        else set_notation compact (set_maximumFractionDigits 3 formatOptions)
    | _ => formatOptions
    end in
  {| value := adjValue;
     symbol := getCoinSymbol coinArgType;
     formatOptions := formatOptions;
     forcedFormatValue :=
       if is_loose mode && ltb adjValue lit_1e_8 then Some "- -" else None |}.

(** [Coin.fromInput]: [BigInt(Math.round(parseFloat(inputValue) *
    denomination))]. *)
Definition fromInput (inputValue : string) (denomination : Number)
  : Result Z :=
  let value := parseFloat inputValue in
  toBigInt (Math_round (mul value denomination)).

End Coin.

(* ===================================================================== *)
(** * The [txresults] slice *)
(* ===================================================================== *)

Module TxResults.
Import JS.

(** ** Responses of the full node, seen through the SDK accessors

    The types and accessors of the SDK ([getTransactionDigest],
    [getTransactions], [getTransactionKindName], ...) are imported by the
    slice, not defined in it.  A response is modelled by the results of the
    accessors the slice applies to it. *)

Inductive ExecutionStatusType := success | failure.

Inductive TransactionKindName :=
| TransferObject | Publish | Call | TransferSui | ChangeEpoch.

Record TransferSuiTx := {
  ts_recipient : string;
  ts_amount : option Z;
}.

Record TransferObjectTx := {
  to_recipient : string;
  to_objectId : string;            (* [objectRef.objectId] *)
}.

Record MoveCallTx := {
  mc_function : option string;
}.

(** Modelled from the spec: the SDK's transaction kind and its accessors are
    not part of the sources.  One operation of a certificate (a transfer of
    an object, a transfer of SUI, a call, ...) as the accessors show it; each
    field carries the result of the accessor it is named after. *)
Record SuiTransactionKind := {
  getTransactionKindName : option TransactionKindName;
  getTransferSuiTransaction : option TransferSuiTx;
  getTransferObjectTransaction : option TransferObjectTx;
  getMoveCallTransaction : option MoveCallTx;
}.

Record CertifiedTransaction := {
  getTransactionDigest : string;
  data_sender : string;
  getTransactions : list SuiTransactionKind;
}.

Record TransactionEffects := {
  created : option (list string);   (* the [reference.objectId] of each *)
}.

Record TransactionEffectsResponse := {
  certificate : CertifiedTransaction;
  effects : TransactionEffects;
  getExecutionStatusType : ExecutionStatusType;
  getExecutionStatusError : option string;
  getTotalGasUsed : Z;
  timestamp_ms : option Z;
}.

(** Modelled from the spec: the object type of [batchFetchObject] is not
    part of the sources.  The [fields] of an object hold the optional
    [description], [name], [url] and [balance]. *)
Record ObjectFields := {
  fields_description : option string;
  fields_name : option string;
  fields_url : option string;
  fields_balance : option Z;
}.

(** Modelled from the spec: an object of the batch fetch has an id and its
    [data], which may have a [type] and may have [fields] (a Move object has
    both, a package has neither). *)
Record SuiObject := {
  reference_objectId : string;
  data_type : option string;
  data_fields : option ObjectFields;
}.

(** ** State *)

(** [TxResultState]: an optional field is an option.  Sequence numbers, gas,
    amounts, balances and timestamps are integers; their [number]s are
    modelled by [Z], on which the subtraction of the sort comparator is
    exact. *)
Record TxResultState := {
  to : option string;
  seq : Z;
  txId : string;
  status : ExecutionStatusType;
  txGas : Z;
  kind : option TransactionKindName;
  from : string;
  amount : option Z;
  timestampMs : option Z;
  url : option string;
  objectId : option string;
  description : option string;
  name : option string;
  isSender : option bool;
  error : option string;
  balance : option Z;
  callFunctionName : option string;
  coinSymbol : option string;
}.

(** [TransactionManualState]; [error: false | {...}] is an option. *)
Record TransactionManualState := {
  loading : bool;
  st_error : option SerializedError;
  latestTx : list TxResultState;
  recentAddresses : list string;
}.

Definition initialState : TransactionManualState :=
  {| loading := true; latestTx := []; recentAddresses := [];
     st_error := None |}.

(** ** Array helpers *)

(** ToBoolean on a string. *)
Definition truthy_string (s : string) : bool :=
  match s with EmptyString => false | _ => true end.

(** [self.indexOf(value)]: the first index holding [value], [-1] when
    there is none. *)
Fixpoint indexOf_from (value : string) (self : list string) (i : Z) : Z :=
  match self with
  | [] => -1
  | x :: self' =>
      if bool_decide (x = value) then i else indexOf_from value self' (i + 1)
  end.

Definition indexOf (value : string) (self : list string) : Z :=
  indexOf_from value self 0.

(** [xs.filter((value, index) => p(value, index))], from index [i] on. *)
Fixpoint filter_indexed {A} (p : A -> Z -> bool) (xs : list A) (i : Z)
  : list A :=
  match xs with
  | [] => []
  | x :: xs' =>
      if p x i then x :: filter_indexed p xs' (i + 1)
      else filter_indexed p xs' (i + 1)
  end.

(** [[...new Set(xs)]]: the distinct elements in insertion order. *)
Definition Set_add (acc : list string) (x : string) : list string :=
  if bool_decide (x ∈ acc) then acc else acc ++ [x].

Definition Set_elements (xs : list string) : list string :=
  foldl Set_add [] xs.

(** [xs.sort(compare)]: a stable sort; [a] stays in front of [b] when
    [compare(a, b) <= 0]. *)
Fixpoint sort_insert {A} (compare : A -> A -> Z) (a : A) (sorted : list A)
  : list A :=
  match sorted with
  | [] => [a]
  | b :: sorted' =>
      if compare a b <=? 0 then a :: b :: sorted'
      else b :: sort_insert compare a sorted'
  end.

Definition Array_sort {A} (compare : A -> A -> Z) (xs : list A) : list A :=
  foldr (sort_insert compare) [] xs.

(** ** [deduplicate] and [getCreatedObjectID] *)

Definition deduplicate (results : option (list (Z * string))) : list string :=
  match results with
  | Some results =>
      let self := map snd results in
      filter_indexed (fun value index => indexOf value self =? index) self 0
  | None => []
  end.

Definition getCreatedObjectID (txEffects : TransactionEffects)
  : option string :=
  match created txEffects with
  | Some (objectId :: _) => Some objectId
  | _ => None
  end.

(** ** The thunk [getTransactionsByAddress] *)

(** [s.replace(/_/g, ' ')]. *)
Fixpoint replace_underscores (s : string) : string :=
  match s with
  | EmptyString => EmptyString
  | String a s' =>
      String (if (a =? "_")%char then " "%char else a) (replace_underscores s')
  end.

(** The template [`Call (${moveCallTxn?.function?.replace(/_/g, ' ')})`]. *)
Definition callFunctionName_of (moveCallTxn : option MoveCallTx) : string :=
  "Call (" +:+
  match moveCallTxn ≫= mc_function with
  | Some f => replace_underscores f
  | None => "undefined"
  end +:+ ")".

(** The callback of [txEffs.map]: the entry of one effect, [None] for a
    certificate of more than one operation.  Destructuring the first
    reference of the effect's digest throws when there is none, and so do
    the accessors on a certificate without operation. *)
Definition toTxResult (address : string) (transactions : list (Z * string))
    (txEff : TransactionEffectsResponse) : Result (option TxResultState) :=
  match filter (fun transactionId =>
                  transactionId.2 = getTransactionDigest (certificate txEff))
               transactions with
  | [] => Throw TypeError
  | (seq, digest) :: _ =>
      let res := certificate txEff in
      let txns := getTransactions res in
      if 1 <? Z.of_nat (length txns) then Ok None
      else
        match txns with
        | [] => Throw TypeError
        | txn :: _ =>
            let txKind := getTransactionKindName txn in
            let transferSui := getTransferSuiTransaction txn in
            let txTransferObject := getTransferObjectTransaction txn in
            let recipient :=
              match transferSui with
              | Some t => Some (ts_recipient t)
              | None => to_recipient <$> txTransferObject
              end in
            let moveCallTxn := getMoveCallTransaction txn in
            let callObjectId := getCreatedObjectID (effects txEff) in
            Ok (Some
              {| seq := seq;
                 txId := digest;
                 status := getExecutionStatusType txEff;
                 txGas := getTotalGasUsed txEff;
                 kind := txKind;
                 callFunctionName := Some (callFunctionName_of moveCallTxn);
                 from := data_sender res;
                 objectId :=
                   match txTransferObject with
                   | Some t => Some (to_objectId t)
                   | None =>
                       match callObjectId with
                       | Some o => if truthy_string o then Some o else None
                       | None => None
                       end
                   end;
                 error := getExecutionStatusError txEff;
                 timestampMs := timestamp_ms txEff;
                 isSender := Some (bool_decide (data_sender res = address));
                 amount :=
                   match transferSui ≫= ts_amount with
                   | Some a => if a =? 0 then None else Some a
                   | None => None
                   end;
                 to :=
                   match recipient with
                   | Some r => if truthy_string r then Some r else None
                   | None => None
                   end;
                 url := None; description := None; name := None;
                 balance := None; coinSymbol := None |})
        end
  end.

(** The [.then] callback: map, drop the [null]s, sort by sequence number,
    most recent first. *)
Definition reconcile (address : string) (transactions : list (Z * string))
    (txEffs : list TransactionEffectsResponse) : Result (list TxResultState) :=
  bind (mapM (toTxResult address transactions) txEffs) (fun entries =>
  Ok (Array_sort (fun a b => seq b - seq a) (omap id entries))).

(** The ids to fetch: [[...new Set(resp.map(objectId).filter(notEmpty))]]. *)
Definition objectIDs_of (resp : list TxResultState) : list string :=
  Set_elements (omap objectId resp).

(** The callback of [resp.map]: [txObjects.find] when the payload is an
    array and the entry has a truthy [objectId]. *)
Definition findObject (txObjects : option (list SuiObject))
    (itm : TxResultState) : option SuiObject :=
  match txObjects, objectId itm with
  | Some objs, Some oid =>
      if truthy_string oid
      then list_find (fun obj => reference_objectId obj = oid) objs ≫=
             (fun found => Some found.2)
      else None
  | _, _ => None
  end.

(** Modelled from the spec: the [Coin] class that the slice imports, the
    one of the wallet, is not part of the sources; the coin symbol is
    derived as the amount model parses a coin type and extracts its symbol,
    which is what the class of the same name in the SDK does.
    [coinType && Coin.getCoinSymbol(coinType)] with [coinType =
    data.type && Coin.getCoinTypeArg(data)]: a falsy type is passed on. *)
Definition coinSymbol_of (obj : SuiObject) : option string :=
  match data_type obj with
  | None => None
  | Some t =>
      if truthy_string t
      then Coin.getCoinTypeArg (Some t) ≫= (fun coinType =>
             Some (if truthy_string coinType
                   then Coin.getCoinSymbol coinType else coinType))
      else Some t
  end.

(** The callback of [resp.map]: the entry with the five fields of the
    object found for it, the entry itself when none is found.  Reading
    [objectTxObj.data.fields.description] throws when the object found has
    no [fields]. *)
Definition enrichEntry (txObjects : option (list SuiObject))
    (itm : TxResultState) : Result TxResultState :=
  match findObject txObjects itm with
  | Some objectTxObj =>
      match data_fields objectTxObj with
      | Some fields =>
          Ok {| to := to itm; seq := seq itm; txId := txId itm;
                status := status itm; txGas := txGas itm; kind := kind itm;
                from := from itm; amount := amount itm;
                timestampMs := timestampMs itm; objectId := objectId itm;
                isSender := isSender itm; error := error itm;
                callFunctionName := callFunctionName itm;
                description := fields_description fields;
                name := fields_name fields;
                url := fields_url fields;
                balance := fields_balance fields;
                coinSymbol := coinSymbol_of objectTxObj |}
      | None => Throw TypeError
      end
  | None => Ok itm
  end.

Definition enrich (txObjects : option (list SuiObject))
    (resp : list TxResultState) : Result (list TxResultState) :=
  mapM (enrichEntry txObjects) resp.

(** The collaborators of the thunk: the two calls on the full node, which
    may fail, and the dispatch of [batchFetchObject], whose payload is
    [undefined] when that thunk is rejected. *)
Record Api := {
  getTransactionsForAddress : string -> Result (list (option (Z * string)));
  getTransactionWithEffectsBatch :
    list string -> Result (list TransactionEffectsResponse);
  batchFetchObject : list string -> option (list SuiObject);
}.

Definition getTransactionsByAddress (api : Api) (address : option string)
  : Result (list TxResultState) :=
  match address with
  | None => Ok []
  | Some address =>
      if negb (truthy_string address) then Ok []
      else
        bind (getTransactionsForAddress api address) (fun raw =>
        let transactions := omap id raw in
        match transactions with
        | [] => Ok []
        | _ =>
            bind (getTransactionWithEffectsBatch api
                    (deduplicate (Some transactions))) (fun txEffs =>
            bind (reconcile address transactions txEffs) (fun resp =>
            let txObjects := batchFetchObject api (objectIDs_of resp) in
            bind (enrich txObjects resp) (fun txnResp =>
            Ok txnResp)))
        end)
  end.

(** ** The reducers of [txSlice] *)

Inductive Action :=
| pending
| fulfilled (payload : list TxResultState)
| rejected (e : SerializedError).

(** [[...new Set(payload.map(tx => [tx.to, tx.from]).flat().filter(itm =>
    itm))]]. *)
Definition recentAddresses_of (payload : list TxResultState) : list string :=
  Set_elements
    (filter (fun itm => truthy_string itm = true)
       (omap id (payload ≫= fun tx => [to tx; Some (from tx)]))).

Definition reducer (state : TransactionManualState) (action : Action)
  : TransactionManualState :=
  match action with
  | fulfilled payload =>
      {| loading := false;
         st_error := None;
         latestTx := payload;
         recentAddresses := recentAddresses_of payload |}
  | pending =>
      {| loading := true;
         st_error := st_error state;
         latestTx := [];
         recentAddresses := [] |}
  | rejected e =>
      {| loading := false;
         st_error := Some e;
         latestTx := [];
         recentAddresses := [] |}
  end.

(** The state after a sequence of actions. *)
Definition run (actions : list Action) : TransactionManualState :=
  foldl reducer initialState actions.

(** One cycle of the thunk as the store sees it: [pending] when it is
    dispatched, then [fulfilled] with its result or [rejected] with its
    exception. *)
Definition cycle (api : Api) (address : option string)
    (state : TransactionManualState) : TransactionManualState :=
  reducer (reducer state pending)
    match getTransactionsByAddress api address with
    | Ok payload => fulfilled payload
    | Throw e => rejected e
    end.

End TxResults.

(* ===================================================================== *)
(** * The specification's reading of [parseUserInput] and [dedupe] *)
(* ===================================================================== *)

(** These definitions follow the words of the specification, not the code.
    For [parseUserInput] the decimal string is read exactly, multiplied by
    the denomination and rounded to the nearest integer, a half going away
    from zero. *)
Module Specification.
Import JS.

Definition round_half_away_from_zero (q : Q) : Z :=
  if Qle_bool 0 q then Qfloor (q + (1 # 2)) else Qceiling (q - (1 # 2)).

Definition decimalValue (text : string) : option Q :=
  match scanDecimalLiteral text with
  | Some (Decimal_literal neg digits exp10) =>
      Some (if 0 <=? exp10
            then inject_Z (cond_Zopp neg digits * 10 ^ exp10)
            else Qmake (cond_Zopp neg digits) (Z.to_pos (10 ^ (- exp10))))
  | _ => None
  end.

Definition parseUserInput (text : string) (denomination : Number)
  : option Z :=
  (fun v => round_half_away_from_zero (v * toQ denomination)) <$>
  decimalValue text.

(** [dedupe] in the words of the specification: the distinct digests, each
    once, in order of first occurrence; [seen] holds the digests already
    met. *)
Fixpoint first_occurrences (seen digests : list string) : list string :=
  match digests with
  | [] => []
  | d :: rest =>
      if bool_decide (d ∈ seen) then first_occurrences seen rest
      else d :: first_occurrences (d :: seen) rest
  end.

Definition dedupe (refs : list (Z * string)) : list string :=
  first_occurrences [] (map snd refs).

(** The precondition of the ordering: sequence numbers are unique, no two
    references with one sequence number name different digests. *)
Definition sequence_numbers_unique (refs : list (Z * string)) : Prop :=
  Forall (fun p => Forall (fun q => p.1 = q.1 -> p.2 = q.2) refs) refs.

(** An effect whose certificate holds more than one operation. *)
Definition multiOperation (txEff : TxResults.TransactionEffectsResponse)
  : Prop :=
  (1 < length (TxResults.getTransactions (TxResults.certificate txEff)))%nat.

(** The same collaborators, the multi-operation effects taken out of every
    answer to the batch fetch. *)
Definition withoutMultiOperation (api : TxResults.Api) : TxResults.Api :=
  {| TxResults.getTransactionsForAddress :=
       TxResults.getTransactionsForAddress api;
     TxResults.getTransactionWithEffectsBatch := fun digests =>
       bind (TxResults.getTransactionWithEffectsBatch api digests)
            (fun txEffs =>
               Ok (filter (fun txEff => ~ multiOperation txEff) txEffs));
     TxResults.batchFetchObject := TxResults.batchFetchObject api |}.

(** The phases of the ledger state, as the data model words them. *)
Definition phase_loading (s : TxResults.TransactionManualState) : Prop :=
  TxResults.loading s = true.

Definition phase_loaded (s : TxResults.TransactionManualState) : Prop :=
  TxResults.latestTx s <> [] /\ TxResults.st_error s = None.

Definition phase_failed (s : TxResults.TransactionManualState) : Prop :=
  TxResults.st_error s <> None.

Definition exactly_one_phase (s : TxResults.TransactionManualState) : Prop :=
  (phase_loading s /\ ~ phase_loaded s /\ ~ phase_failed s)
  \/ (~ phase_loading s /\ phase_loaded s /\ ~ phase_failed s)
  \/ (~ phase_loading s /\ ~ phase_loaded s /\ phase_failed s).

(** The states of the ledger state machine, read on the store: while
    loading and after a failure nothing is listed; once loaded the recent
    addresses are those of the listed entries. *)
Definition Loading (s : TxResults.TransactionManualState) : Prop :=
  TxResults.loading s = true
  /\ TxResults.latestTx s = [] /\ TxResults.recentAddresses s = [].

Definition Loaded (s : TxResults.TransactionManualState) : Prop :=
  TxResults.loading s = false
  /\ TxResults.st_error s = None
  /\ TxResults.recentAddresses s
     = TxResults.recentAddresses_of (TxResults.latestTx s).

Definition Failed (s : TxResults.TransactionManualState) : Prop :=
  TxResults.loading s = false
  /\ TxResults.st_error s <> None
  /\ TxResults.latestTx s = [] /\ TxResults.recentAddresses s = [].

End Specification.

(* ===================================================================== *)
(** * Sample data *)
(* ===================================================================== *)

Module Examples.
Import JS TxResults.

Definition transfer : SuiTransactionKind :=
  {| getTransactionKindName := Some TransferSui;
     getTransferSuiTransaction :=
       Some {| ts_recipient := "0xb"; ts_amount := Some 5 |};
     getTransferObjectTransaction := None;
     getMoveCallTransaction := None |}.

Definition mint : SuiTransactionKind :=
  {| getTransactionKindName := Some Call;
     getTransferSuiTransaction := None;
     getTransferObjectTransaction := None;
     getMoveCallTransaction := Some {| mc_function := Some "mint_to_sender" |} |}.

(** The effect of the certificate [digest]: the digest ["d1"] names a batch
    of two transfers, ["d2"] a call that created the object ["0x77"], any
    other digest one transfer. *)
Definition effect_of (digest : string) : TransactionEffectsResponse :=
  {| certificate :=
       {| getTransactionDigest := digest;
          data_sender := "0xa";
          getTransactions :=
            if bool_decide (digest = "d1") then [transfer; transfer]
            else if bool_decide (digest = "d2") then [mint]
            else [transfer] |};
     effects :=
       {| created := if bool_decide (digest = "d2") then Some ["0x77"]
                     else None |};
     getExecutionStatusType := success;
     getExecutionStatusError := None;
     getTotalGasUsed := 10;
     timestamp_ms := Some 1660000000000 |}.

Definition nft : SuiObject :=
  {| reference_objectId := "0x77";
     data_type := Some "0x2::devnet_nft::DevNetNFT";
     data_fields :=
       Some {| fields_description := Some "An example";
               fields_name := Some "Example NFT";
               fields_url := Some "ipfs://example";
               fields_balance := None |} |}.

(** An object of the same id whose data has no [fields]. *)
Definition package : SuiObject :=
  {| reference_objectId := "0x77"; data_type := None; data_fields := None |}.

(** A node that knows five references, one of them empty and one repeated,
    and answers a batch fetch with the effect of each requested digest. *)
Definition node : Api :=
  {| getTransactionsForAddress := fun _ =>
       Ok [Some (3, "d3"); Some (1, "d1"); None; Some (3, "d3"); Some (2, "d2")];
     getTransactionWithEffectsBatch := fun digests => Ok (map effect_of digests);
     batchFetchObject := fun _ => Some [nft] |}.

(** The references of the node without the empty one, and the entries
    reconciled from them for the address ["0xa"]. *)
Definition references : list (Z * string) :=
  [(3, "d3"); (1, "d1"); (3, "d3"); (2, "d2")].

Definition entries : list TxResultState :=
  match reconcile "0xa" references
          (map effect_of (deduplicate (Some references))) with
  | Ok resp => resp
  | Throw _ => []
  end.

(** A space, a no-break space (U+00A0), a line separator (U+2028) and a
    byte order mark (U+FEFF). *)
Definition white_space : string :=
  String " " (String "194" (String "160" (String "226" (String "128"
    (String "168" (String "239" (String "187" (String "191" "")))))))).

Definition failure_error : SerializedError :=
  {| err_code := None; err_name := Some "Error";
     err_message := Some (message_text "Failed to fetch") |}.

(** A node that lists the references out of order and answers a batch fetch
    with the effects in the order of the request. *)
Definition unordered : Api :=
  {| getTransactionsForAddress := fun _ =>
       Ok [Some (2, "d2"); Some (5, "d5"); Some (3, "d3")];
     getTransactionWithEffectsBatch := fun digests => Ok (map effect_of digests);
     batchFetchObject := fun _ => Some [nft] |}.

(** The sample node when the object fetched for the id ["0x77"] has no
    [fields]. *)
Definition packaged : Api :=
  {| getTransactionsForAddress := getTransactionsForAddress node;
     getTransactionWithEffectsBatch := getTransactionWithEffectsBatch node;
     batchFetchObject := fun _ => Some [package] |}.

(** A node that lists one reference and answers the batch fetch with its
    effect twice. *)
Definition repeating : Api :=
  {| getTransactionsForAddress := fun _ => Ok [Some (1, "d3")];
     getTransactionWithEffectsBatch := fun _ =>
       Ok [effect_of "d3"; effect_of "d3"];
     batchFetchObject := fun _ => None |}.

(** A node that lists one reference and answers the batch fetch with its
    effect and with the batch ["d1"], which it did not list. *)
Definition stray : Api :=
  {| getTransactionsForAddress := fun _ => Ok [Some (3, "d3")];
     getTransactionWithEffectsBatch := fun _ =>
       Ok [effect_of "d3"; effect_of "d1"];
     batchFetchObject := fun _ => None |}.

End Examples.

(* ===================================================================== *)
(** * The rest of the [Coin] class, and [Delegation] *)
(* ===================================================================== *)

Module CoinObjects.
Import JS.

Definition COIN_PACKAGE_ID : string := "0x2".
Definition COIN_MODULE_NAME : string := "coin".
Definition COIN_TYPE : string :=
  COIN_PACKAGE_ID +:+ "::" +:+ COIN_MODULE_NAME +:+ "::Coin".

(** [ObjectData]: a response of the node, which has a [status] and whose
    type is what the imported [getMoveObjectType] returns, or a Move object
    or an object info, which carry their [type]. *)
Inductive ObjectData :=
| GetObjectDataResponse (getMoveObjectType : option string)
| SuiMoveObject (type : string)
| SuiObjectInfo (type : string).

(** The private [Coin.getType]. *)
Definition getType (data : ObjectData) : option string :=
  match data with
  | GetObjectDataResponse getMoveObjectType => getMoveObjectType
  | SuiMoveObject type => Some type
  | SuiObjectInfo type => Some type
  end.

(** [Coin.isCoin]: [Coin.getType(data)?.startsWith(COIN_TYPE) ?? false]. *)
Definition isCoin (data : ObjectData) : bool :=
  match getType data with
  | Some t => String.prefix COIN_TYPE t
  | None => false
  end.

(** [Coin.getCoinTypeArg] on an object. *)
Definition getCoinTypeArg (obj : ObjectData) : option string :=
  Coin.getCoinTypeArg (getType obj).

(** [Coin.isSUI]. *)
Definition isSUI (obj : ObjectData) : bool :=
  match getCoinTypeArg obj with
  | Some arg =>
      if TxResults.truthy_string arg
      then bool_decide (Coin.getCoinSymbol arg = "SUI")
      else false
  | None => false
  end.

(** [s.split('::')]: the pieces between the occurrences of the separator,
    found from left to right; [cur] is the piece being read. *)
Fixpoint split_from (s : string) (cur : string) : list string :=
  match s with
  | EmptyString => [cur]
  | String a s' =>
      match s' with
      | String b s'' =>
          if (a =? ":")%char && (b =? ":")%char
          then cur :: split_from s'' EmptyString
          else split_from s' (cur +:+ String a EmptyString)
      | EmptyString => split_from s' (cur +:+ String a EmptyString)
      end
  end.

Definition split_colons (s : string) : list string :=
  split_from s EmptyString.

Record StructTag := {
  address : string;
  module : option string;
  name : option string;
  typeParams : list string;
}.

(** [Coin.getCoinStructTag]; the imported [normalizeSuiObjectId] is an
    argument.  A missing piece is [undefined]. *)
Definition getCoinStructTag (normalizeSuiObjectId : string -> string)
    (coinTypeArg : string) : StructTag :=
  {| address :=
       normalizeSuiObjectId (default EmptyString (split_colons coinTypeArg !! 0%nat));
     module := split_colons coinTypeArg !! 1%nat;
     name := split_colons coinTypeArg !! 2%nat;
     typeParams := [] |}.

End CoinObjects.

Module Delegation.

(** The fields of a delegation object that the class reads.  Epochs and
    amounts are integers, modelled by [Z]; the two optional fields carry
    the result of the imported [getOption]. *)
Record DelegationSuiObject := {
  active_delegation : option Z;
  delegate_amount : Z;
  next_reward_unclaimed_epoch : Z;
  validator_address : string;
  ending_epoch : option Z;
}.

Definition nextRewardUnclaimedEpoch (d : DelegationSuiObject) : Z :=
  next_reward_unclaimed_epoch d.

(** [x || 0] on an optional number. *)
Definition or_zero (x : option Z) : Z :=
  match x with
  | Some v => v
  | None => 0
  end.

(** [BigInt(getOption(active_delegation) || 0)]. *)
Definition activeDelegation (d : DelegationSuiObject) : Z :=
  or_zero (active_delegation d).

Definition delegateAmount (d : DelegationSuiObject) : Z := delegate_amount d.

Definition endingEpoch (d : DelegationSuiObject) : option Z := ending_epoch d.

Definition validatorAddress (d : DelegationSuiObject) : string :=
  validator_address d.

(** ToBoolean on an optional number: [undefined] and [0] are falsy. *)
Definition truthy_number (x : option Z) : bool :=
  match x with
  | Some v => negb (v =? 0)
  | None => false
  end.

(** [this.activeDelegation() > 0 && !this.endingEpoch()]. *)
Definition isActive (d : DelegationSuiObject) : bool :=
  (0 <? activeDelegation d) && negb (truthy_number (endingEpoch d)).

(** [hasUnclaimedRewards(epoch)]. *)
Definition hasUnclaimedRewards (d : DelegationSuiObject) (epoch : Z) : bool :=
  (nextRewardUnclaimedEpoch d <=? epoch)
  && (isActive d || (epoch <? or_zero (endingEpoch d))).

End Delegation.

(* ===================================================================== *)
(** * What the cards and the receipt page compute from the slice *)
(* ===================================================================== *)

Module Views.
Import TxResults.

(** [a || b] on an optional number and a number. *)
Definition or_number (a : option Z) (b : Z) : Z :=
  match a with
  | Some v => if v =? 0 then b else v
  | None => b
  end.

(** [url.replace(/^ipfs:\/\//, 'https://ipfs.io/ipfs/')]. *)
Definition replace_ipfs (url : string) : string :=
  if String.prefix "ipfs://" url
  then "https://ipfs.io/ipfs/" +:+ Coin.substring_from 7 url
  else url.

(** [txn.url && ...] of the three cards: the image source, when the entry
    has a non-empty url. *)
Definition imgUrl (txn : TxResultState) : option string :=
  match url txn with
  | Some u => if truthy_string u then Some (replace_ipfs u) else None
  | None => None
  end.

Inductive TransferType := Call_type | Sent | Received.

(** [txn.kind === 'Call' ? 'Call' : txn.isSender ? 'Sent' : 'Received']. *)
Definition transferType (txn : TxResultState) : TransferType :=
  match kind txn with
  | Some Call => Call_type
  | _ =>
      match isSender txn with
      | Some true => Sent
      | _ => Received
      end
  end.

(** The [amount] of [transferMeta[transferType]] in the transaction card:
    [balance || amount || txGas || 0] for a call, [amount || txGas || 0]
    otherwise. *)
Definition cardAmount (txn : TxResultState) : Z :=
  match transferType txn with
  | Call_type =>
      or_number (balance txn) (or_number (amount txn)
                                 (or_number (Some (txGas txn)) 0))
  | _ => or_number (amount txn) (or_number (Some (txGas txn)) 0)
  end.

(** The receipt page: [txResults.filter((txn) => txn.txId === txDigest)[0]]
    for the [txdigest] parameter of the address, [null] when it is absent. *)
Definition txnItem (txDigest : option string) (txResults : list TxResultState)
  : option TxResultState :=
  match txDigest with
  | Some d => head (filter (fun txn => txId txn = d) txResults)
  | None => None
  end.

(** The receipt page leaves for another page when
    [(!txDigest && !txnItem) || (!loading && !txResults.length)]. *)
Definition navigatesAway (txDigest : option string)
    (state : TransactionManualState) : bool :=
  let txResults := latestTx state in
  let has_digest :=
    match txDigest with Some d => truthy_string d | None => false end in
  (negb has_digest && negb (bool_decide (is_Some (txnItem txDigest txResults))))
  || (negb (loading state) && (Z.of_nat (length txResults) =? 0)).

End Views.

(* ===================================================================== *)
(** * Facts about numbers *)
(* ===================================================================== *)

Section NumberFacts.
Import JS.
Lemma digits2_pos_iter_xO (k p : positive) :
  digits2_pos (Pos.iter xO p k) = (digits2_pos p + k)%positive.
Proof.
  induction k as [|k IH] using Pos.peano_ind.
  - simpl. lia.
  - rewrite Pos.iter_succ. simpl. rewrite IH. lia.
Qed.

Lemma Zpos_iter_xO (k p : positive) :
  Zpos (Pos.iter xO p k) = Zpos p * 2 ^ Zpos k.
Proof.
  induction k as [|k IH] using Pos.peano_ind.
  - simpl. lia.
  - rewrite Pos.iter_succ, Pos2Z.inj_succ, Z.pow_succ_r by lia.
    rewrite Pos2Z.inj_xO, IH. lia.
Qed.

Lemma digits2_pos_bound (p : positive) :
  2 ^ (Zpos (digits2_pos p) - 1) <= Zpos p < 2 ^ Zpos (digits2_pos p).
Proof.
  induction p as [p IH|p IH|]; simpl digits2_pos.
  - rewrite Pos2Z.inj_succ, Z.pow_succ_r by lia.
    replace (Z.succ (Zpos (digits2_pos p)) - 1) with (Z.succ (Zpos (digits2_pos p) - 1)) by lia.
    rewrite Z.pow_succ_r by lia. lia.
  - rewrite Pos2Z.inj_succ, Z.pow_succ_r by lia.
    replace (Z.succ (Zpos (digits2_pos p)) - 1) with (Z.succ (Zpos (digits2_pos p) - 1)) by lia.
    rewrite Z.pow_succ_r by lia. lia.
  - simpl. lia.
Qed.

(** Rounding a mantissa that is already canonical changes nothing. *)
Lemma binary_round_aux_canonical (s : bool) (m : positive) (e : Z) :
  canonical_mantissa prec emax m e = true ->
  e <= emax - prec ->
  binary_round_aux prec emax s (Zpos m) e loc_Exact = S754_finite s m e.
Proof.
  intros Hc He. unfold canonical_mantissa in Hc. apply Z.eqb_eq in Hc.
  unfold binary_round_aux, shr_fexp. simpl Zdigits2.
  rewrite Hc, Z.sub_diag. simpl.
  rewrite Hc, Z.sub_diag. simpl.
  apply Z.leb_le in He. rewrite He. reflexivity.
Qed.

Lemma binary_round_small (s : bool) (p : positive) :
  Zpos (digits2_pos p) <= 53 ->
  exists m e, binary_round prec emax s p 0 = S754_finite s m e
              /\ e <= 0 /\ Zpos m = Zpos p * 2 ^ (- e).
Proof.
  intros Hd. unfold binary_round, shl_align.
  assert (Hf : fexp prec emax (Zpos (digits2_pos p) + 0) = Zpos (digits2_pos p) - 53).
  { unfold fexp, SpecFloat.emin, prec, emax. lia. }
  rewrite Hf, Z.sub_0_r.
  destruct (Zpos (digits2_pos p) - 53) as [|q|q] eqn:Hq; try lia.
  - exists p, 0. split; [|split; [lia|simpl; lia]].
    apply binary_round_aux_canonical.
    + unfold canonical_mantissa. apply Z.eqb_eq. rewrite Hf. lia.
    + unfold prec, emax. lia.
  - exists (Pos.iter xO p q), (Zneg q). split; [|split; [lia|]].
    + apply binary_round_aux_canonical.
      * unfold canonical_mantissa. apply Z.eqb_eq.
        rewrite digits2_pos_iter_xO. unfold fexp, SpecFloat.emin, prec, emax. lia.
      * unfold prec, emax. lia.
    + rewrite Zpos_iter_xO. reflexivity.
Qed.

Lemma toBigInt_ofBigInt (n : Z) :
  Z.abs n < 2 ^ 53 -> toBigInt (ofBigInt n) = Ok n.
Proof.
  intros Hn.
  assert (Hsmall : forall p, Zpos p < 2 ^ 53 -> Zpos (digits2_pos p) <= 53).
  { intros p Hp. pose proof (digits2_pos_bound p) as [Hlo _].
    destruct (Z_le_gt_dec (Zpos (digits2_pos p)) 53) as [|Hgt]; [assumption|].
    assert (2 ^ 53 <= 2 ^ (Zpos (digits2_pos p) - 1)) by (apply Z.pow_le_mono_r; lia).
    lia. }
  assert (Hfin : forall s p, Zpos p < 2 ^ 53 ->
                   toBigInt (binary_round prec emax s p 0) = Ok (signed s p)).
  { intros s p Hp.
    destruct (binary_round_small s p (Hsmall p Hp)) as (m & e & -> & He & Hm).
    unfold toBigInt, signed. destruct (Z.leb_spec 0 e) as [He0|He0].
    - replace e with 0 in * by lia. simpl in Hm. f_equal.
      destruct s; simpl; lia.
    - assert (0 < 2 ^ (- e)) by (apply Z.pow_pos_nonneg; lia).
      rewrite Hm, Z_mod_mult. simpl (0 =? 0). f_equal.
      destruct s; unfold cond_Zopp.
      + rewrite <- Z.mul_opp_l, Z.div_mul by lia. reflexivity.
      + rewrite Z.div_mul by lia. reflexivity. }
  destruct n as [|p|p]; unfold ofBigInt, binary_normalize.
  - reflexivity.
  - apply (Hfin false). lia.
  - apply (Hfin true). lia.
Qed.

(** [Math.round] followed by [BigInt] on a finite number of the format:
    an integer within one half of the number, a tie going up. *)
Lemma toBigInt_Math_round (p : Number) :
  isFinite p = true ->
  valid_binary prec emax p = true ->
  exists z, toBigInt (Math_round p) = Ok z
            /\ (toQ p - (1 # 2) < inject_Z z)%Q
            /\ (inject_Z z <= toQ p + (1 # 2))%Q.
Proof.
  destruct p as [s0| |  |s m e]; try discriminate; intros _ Hv.
  - exists 0. split; [reflexivity|]. split; reflexivity || discriminate.
  - unfold Math_round, toQ. destruct (Z.leb_spec 0 e) as [He|He].
    + exists (signed s m * 2 ^ e). split.
      * unfold toBigInt. destruct (Z.leb_spec 0 e); [reflexivity|lia].
      * unfold Qlt, Qle, Qminus, Qplus, Qopp, inject_Z; simpl; lia.
    + set (T := 2 ^ (- e)). set (H := 2 ^ (- e - 1)).
      assert (HT : T = 2 * H).
      { unfold T, H. replace (- e) with (Z.succ (- e - 1)) at 1 by lia.
        apply Z.pow_succ_r. lia. }
      assert (HH : 0 < H) by (apply Z.pow_pos_nonneg; lia).
      set (sm := signed s m).
      rewrite Z.shiftr_div_pow2 by lia. fold T sm.
      set (n := (sm + H) / T).
      assert (Hn : n * T <= sm + H < n * T + T).
      { pose proof (Z.div_mod (sm + H) T ltac:(lia)) as Hdm.
        pose proof (Z.mod_pos_bound (sm + H) T ltac:(lia)) as Hmb.
        fold n in Hdm. lia. }
      assert (Hm : Zpos m < 2 ^ 53).
      { simpl in Hv. unfold bounded, canonical_mantissa in Hv.
        apply andb_prop in Hv as [Hc _]. apply Z.eqb_eq in Hc.
        unfold fexp, SpecFloat.emin, prec, emax in Hc.
        assert (Zpos (digits2_pos m) <= 53) by lia.
        pose proof (digits2_pos_bound m) as [_ Hhi].
        assert (2 ^ Zpos (digits2_pos m) <= 2 ^ 53)
          by (apply Z.pow_le_mono_r; lia).
        lia. }
      assert (Hsm : - 2 ^ 53 < sm < 2 ^ 53).
      { unfold sm, signed. destruct s; simpl cond_Zopp; lia. }
      assert (Habs : Z.abs n < 2 ^ 53) by nia.
      exists n. split.
      * destruct (Z.eqb_spec n 0) as [->|_]; [reflexivity|].
        apply toBigInt_ofBigInt, Habs.
      * unfold Qlt, Qle, Qminus, Qplus, Qopp, inject_Z. simpl.
        fold T sm. rewrite Z2Pos.id by lia. split; nia.
Qed.
End NumberFacts.


(* ===================================================================== *)
(** * Amount formatting: [Coin.getFormatData] *)
(* ===================================================================== *)

Section FormatFacts.
Import JS Coin.

(** The comparison of a bigint with a finite number is the comparison of
    the two exact values. *)
Lemma BigInt_lt_Number_spec (b : Z) (y : Number) :
  isFinite y = true ->
  BigInt_lt_Number b y = true <-> (inject_Z b < toQ y)%Q.
Proof.
  destruct y as [s| | |s m e]; try discriminate; intros _;
    unfold BigInt_lt_Number, toQ.
  - rewrite Z.ltb_lt. unfold Qlt, inject_Z. simpl. lia.
  - destruct (Z.leb_spec 0 e) as [He|He]; rewrite Z.ltb_lt.
    + unfold Qlt, inject_Z. simpl. lia.
    + assert (0 < 2 ^ (- e)) by (apply Z.pow_pos_nonneg; lia).
      unfold Qlt, inject_Z. simpl. rewrite Z2Pos.id by lia. lia.
Qed.

(** A quotient by [NaN] is [NaN]. *)
Lemma div_NaN (x : Number) : div x NaN = NaN.
Proof. destruct x; reflexivity. Qed.

(** The table has one entry of its own and inherits the properties of
    [Object.prototype]: a coin type resolves to [1e9], to an inherited
    function or object, or to [1]. *)
Lemma denomination_of_cases (coinArgType : string) :
  (coinArgType = "0x2::sui::SUI"
   /\ denomination_of coinArgType = number_property lit_1e9)
  \/ (coinArgType ∈ Object_prototype
      /\ denomination_of coinArgType = object_property)
  \/ (coinArgType <> "0x2::sui::SUI" /\ (coinArgType ∉ Object_prototype)
      /\ denomination_of coinArgType = number_property lit_1).
Proof.
  unfold denomination_of, COIN_DENOMINATIONS_get, COIN_DENOMINATIONS.
  destruct (decide (coinArgType = "0x2::sui::SUI")) as [->|Hne].
  - left. split; [reflexivity|]. rewrite lookup_singleton_eq. reflexivity.
  - right. rewrite lookup_singleton_ne by congruence.
    case_bool_decide as Hin; [left|right]; repeat split; assumption.
Qed.

End FormatFacts.

(** C9. In accurate mode, whatever the balance and the coin type, the
    maximum number of fraction digits is set to 20 and no notation is
    selected (so never the compact one); no placeholder is forced. *)
Theorem getFormatData_accurate (balance : Z) (coinArgType : string) :
  let r := Coin.getFormatData balance coinArgType Coin.accurate in
  Coin.maximumFractionDigits (Coin.formatOptions r) = Some 20
  /\ Coin.notation (Coin.formatOptions r) = None
  /\ Coin.notation (Coin.formatOptions r) <> Some Coin.compact
  /\ Coin.forcedFormatValue r = None.
Proof.
  cbv zeta. unfold Coin.getFormatData. simpl. repeat split. discriminate.
Qed.

(** C2, as the code has it.  In loose mode, with [B] the balance and [D]
    the denomination of the coin type as a number, which is [1e9] for the
    native coin type, [NaN] for a coin type that names a property of
    [Object.prototype] and [1] for any other: the value is the quotient of
    [B] by [D]; for a denomination that is a number, if [B < D] the maximum
    number of fraction digits is 8 and no notation is set, otherwise it is 3
    with the compact notation; for one that is not, it is 3 with the compact
    notation and no placeholder; and whenever the computed value is below
    [1e-8] the forced format value is the string made of a hyphen, a space
    and a hyphen (it is absent otherwise). *)
Theorem getFormatData_loose (balance : Z) (coinArgType : string) :
  let D := Coin.denominationOf coinArgType in
  let r := Coin.getFormatData balance coinArgType Coin.loose in
  Coin.value r = JS.div (JS.ofBigInt balance) D
  /\ ((coinArgType = "0x2::sui::SUI" /\ D = Coin.lit_1e9)
      \/ (coinArgType ∈ Coin.Object_prototype /\ D = JS.NaN)
      \/ (coinArgType <> "0x2::sui::SUI"
          /\ (coinArgType ∉ Coin.Object_prototype) /\ D = Coin.lit_1))
  /\ (JS.isFinite D = true -> (inject_Z balance < JS.toQ D)%Q ->
      Coin.maximumFractionDigits (Coin.formatOptions r) = Some 8
      /\ Coin.notation (Coin.formatOptions r) = None)
  /\ (JS.isFinite D = true -> ~ (inject_Z balance < JS.toQ D)%Q ->
      Coin.maximumFractionDigits (Coin.formatOptions r) = Some 3
      /\ Coin.notation (Coin.formatOptions r) = Some Coin.compact)
  /\ (JS.isFinite D = false ->
      Coin.value r = JS.NaN
      /\ Coin.maximumFractionDigits (Coin.formatOptions r) = Some 3
      /\ Coin.notation (Coin.formatOptions r) = Some Coin.compact
      /\ Coin.forcedFormatValue r = None)
  /\ (JS.ltb (Coin.value r) Coin.lit_1e_8 = true ->
      Coin.forcedFormatValue r = Some "- -")
  /\ (JS.ltb (Coin.value r) Coin.lit_1e_8 = false ->
      Coin.forcedFormatValue r = None).
Proof.
  cbv zeta. unfold Coin.denominationOf, Coin.getFormatData.
  cbn [Coin.value Coin.formatOptions Coin.forcedFormatValue Coin.is_loose andb].
  split; [reflexivity|].
  assert (Hforced : forall v : JS.Number,
            (JS.ltb v Coin.lit_1e_8 = true ->
             (if JS.ltb v Coin.lit_1e_8 then Some "- -" else None) = Some "- -")
            /\ (JS.ltb v Coin.lit_1e_8 = false ->
                (if JS.ltb v Coin.lit_1e_8 then Some "- -" else None)
                = @None string))
    by (intros v; split; intros ->; reflexivity).
  destruct (denomination_of_cases coinArgType)
    as [[Hc ->]|[[Hc ->]|(Hc & Hno & ->)]]; cbn [Coin.ToNumber Coin.BigInt_lt].
  - split; [left; split; [exact Hc|reflexivity]|].
    pose proof (BigInt_lt_Number_spec balance Coin.lit_1e9 eq_refl) as Hlt.
    destruct (JS.BigInt_lt_Number balance Coin.lit_1e9).
    + split; [intros _ _; split; reflexivity|].
      split; [intros _ Hn; exfalso; apply Hn, Hlt; reflexivity|].
      split; [discriminate|apply Hforced].
    + split; [intros _ Hq; apply Hlt in Hq; discriminate|].
      split; [intros _ _; split; reflexivity|].
      split; [discriminate|apply Hforced].
  - split; [right; left; split; [exact Hc|reflexivity]|].
    split; [discriminate|]. split; [discriminate|].
    rewrite div_NaN. change (JS.ltb JS.NaN Coin.lit_1e_8) with false.
    split; [intros _; repeat split|]. split; [discriminate|reflexivity].
  - split; [right; right; repeat split; assumption|].
    pose proof (BigInt_lt_Number_spec balance Coin.lit_1 eq_refl) as Hlt.
    destruct (JS.BigInt_lt_Number balance Coin.lit_1).
    + split; [intros _ _; split; reflexivity|].
      split; [intros _ Hn; exfalso; apply Hn, Hlt; reflexivity|].
      split; [discriminate|apply Hforced].
    + split; [intros _ Hq; apply Hlt in Hq; discriminate|].
      split; [intros _ _; split; reflexivity|].
      split; [discriminate|apply Hforced].
Qed.

(** The loose-mode rules at the balance 5 of the native coin, below the
    denomination and below [1e-8], and at the balance 0 of the coin type
    [constructor], whose denomination is no number. *)
Lemma getFormatData_loose_witness :
  let r := Coin.getFormatData 5 "0x2::sui::SUI" Coin.loose in
  let r' := Coin.getFormatData 0 "constructor" Coin.loose in
  JS.isFinite (Coin.denominationOf "0x2::sui::SUI") = true
  /\ (inject_Z 5 < JS.toQ (Coin.denominationOf "0x2::sui::SUI"))%Q
  /\ JS.ltb (Coin.value r) Coin.lit_1e_8 = true
  /\ Coin.maximumFractionDigits (Coin.formatOptions r) = Some 8
  /\ Coin.forcedFormatValue r = Some "- -"
  /\ JS.isFinite (Coin.denominationOf "constructor") = false
  /\ Coin.value r' = JS.NaN
  /\ Coin.maximumFractionDigits (Coin.formatOptions r') = Some 3
  /\ Coin.notation (Coin.formatOptions r') = Some Coin.compact
  /\ Coin.forcedFormatValue r' = None.
Proof.
  cbv zeta.
  destruct (getFormatData_loose 5 "0x2::sui::SUI")
    as (_ & _ & H8 & _ & _ & Hf & _).
  destruct (getFormatData_loose 0 "constructor") as (_ & _ & _ & _ & Hnan & _).
  assert (Hfin : JS.isFinite (Coin.denominationOf "0x2::sui::SUI") = true)
    by (vm_compute; reflexivity).
  assert (Hlt : (inject_Z 5 < JS.toQ (Coin.denominationOf "0x2::sui::SUI"))%Q)
    by (vm_compute; reflexivity).
  assert (Hsmall : JS.ltb (Coin.value (Coin.getFormatData 5 "0x2::sui::SUI"
                                          Coin.loose)) Coin.lit_1e_8 = true)
    by (vm_compute; reflexivity).
  assert (Hobj : JS.isFinite (Coin.denominationOf "constructor") = false)
    by (vm_compute; reflexivity).
  split; [exact Hfin|]. split; [exact Hlt|]. split; [exact Hsmall|].
  split; [exact (proj1 (H8 Hfin Hlt))|]. split; [exact (Hf Hsmall)|].
  split; [exact Hobj|]. exact (Hnan Hobj).
Defined.

(** For the native coin the placeholder is forced up to the balance 9 and
    no longer at the balance 10, where the value is [1e-8] itself. *)
Example getFormatData_loose_boundary :
  Coin.forcedFormatValue (Coin.getFormatData 9 "0x2::sui::SUI" Coin.loose)
  = Some "- -"
  /\ Coin.forcedFormatValue (Coin.getFormatData 10 "0x2::sui::SUI" Coin.loose)
     = None
  /\ Coin.value (Coin.getFormatData 10 "0x2::sui::SUI" Coin.loose)
     = Coin.lit_1e_8.
Proof. repeat split; vm_compute; reflexivity. Qed.

(** C2, as stated, fails on the placeholder: at balance 0 the computed
    value is below [1e-8], and the forced format value is not the string of
    two dashes around a space that the claim names. *)
Lemma getFormatData_loose_placeholder_differs :
  let r := Coin.getFormatData 0 "0x2::sui::SUI" Coin.loose in
  JS.ltb (Coin.value r) Coin.lit_1e_8 = true
  /\ Coin.forcedFormatValue r <> Some "– –".
Proof.
  cbv zeta. split; [vm_compute; reflexivity|].
  vm_compute. discriminate.
Qed.

(** C3, as the code has it.  For the coin type ["0x2::sui::SUI"], the one
    whose denomination is [1e9], and the balance 500000000, loose mode gives
    the value 0.5, a maximum of 8 fraction digits, no notation, no
    placeholder, and the symbol ["SUI"]. *)
Theorem getFormatData_native_half :
  let r := Coin.getFormatData 500000000 "0x2::sui::SUI" Coin.loose in
  Coin.denominationOf "0x2::sui::SUI" = JS.ofBigInt (10 ^ 9)
  /\ Coin.value r = JS.parseFloat "0.5"
  /\ (JS.toQ (Coin.value r) == 1 # 2)%Q
  /\ Coin.maximumFractionDigits (Coin.formatOptions r) = Some 8
  /\ Coin.notation (Coin.formatOptions r) = None
  /\ Coin.forcedFormatValue r = None
  /\ Coin.symbol r = "SUI".
Proof.
  cbv zeta. repeat split; vm_compute; reflexivity.
Qed.

(** C3, as stated, fails: the coin type ["pkg::sui::SUI"] is not in the
    table, its denomination is 1, so the value is 500000000 with a maximum
    of 3 fraction digits in compact notation; only the symbol is as
    claimed. *)
Lemma getFormatData_pkg_half_fails :
  let r := Coin.getFormatData 500000000 "pkg::sui::SUI" Coin.loose in
  Coin.value r = JS.ofBigInt 500000000
  /\ Coin.maximumFractionDigits (Coin.formatOptions r) = Some 3
  /\ Coin.notation (Coin.formatOptions r) = Some Coin.compact
  /\ Coin.symbol r = "SUI"
  /\ ~ ((JS.toQ (Coin.value r) == 1 # 2)%Q
        /\ Coin.maximumFractionDigits (Coin.formatOptions r) = Some 8
        /\ Coin.symbol r = "SUI").
Proof.
  cbv zeta. repeat split; try (vm_compute; reflexivity).
  intros (_ & H & _). vm_compute in H. discriminate.
Qed.

(* ===================================================================== *)
(** * Parsing amounts: [Coin.fromInput] *)
(* ===================================================================== *)

(** C4, as the code has it.  Whenever the binary64 product of the parsed
    input and the denomination is a finite number of the format,
    [fromInput] returns an integer within one half of that product, a tie
    going to the greater integer. *)
Theorem fromInput_nearest_ties_up (inputValue : string) (denomination : JS.Number) :
  let p := JS.mul (JS.parseFloat inputValue) denomination in
  JS.isFinite p = true ->
  valid_binary JS.prec JS.emax p = true ->
  exists z, Coin.fromInput inputValue denomination = JS.Ok z
            /\ (JS.toQ p - (1 # 2) < inject_Z z)%Q
            /\ (inject_Z z <= JS.toQ p + (1 # 2))%Q.
Proof.
  cbv zeta. intros Hfin Hvalid. unfold Coin.fromInput.
  apply toBigInt_Math_round; assumption.
Qed.

(** The input ["-2.5"] at denomination 1: the product is [-2.5] and the
    result is [-2]. *)
Lemma fromInput_nearest_ties_up_witness :
  (JS.toQ (JS.mul (JS.parseFloat "-2.5") Coin.lit_1) == -5 # 2)%Q
  /\ exists z, Coin.fromInput "-2.5" Coin.lit_1 = JS.Ok z
               /\ (JS.toQ (JS.mul (JS.parseFloat "-2.5") Coin.lit_1) - (1 # 2)
                   < inject_Z z)%Q
               /\ (inject_Z z
                   <= JS.toQ (JS.mul (JS.parseFloat "-2.5") Coin.lit_1)
                      + (1 # 2))%Q.
Proof.
  split; [vm_compute; reflexivity|].
  apply (fromInput_nearest_ties_up "-2.5" Coin.lit_1); vm_compute; reflexivity.
Defined.

(** C4, as stated, fails on a negative half: for ["-2.5"] at denomination 1
    the code returns [-2], where rounding the half away from zero gives
    [-3]. *)
Lemma fromInput_negative_half :
  Coin.fromInput "-2.5" Coin.lit_1 = JS.Ok (-2)
  /\ Specification.parseUserInput "-2.5" Coin.lit_1 = Some (-3)
  /\ ~ (exists z, Coin.fromInput "-2.5" Coin.lit_1 = JS.Ok z
                  /\ Specification.parseUserInput "-2.5" Coin.lit_1 = Some z).
Proof.
  split; [vm_compute; reflexivity|]. split; [vm_compute; reflexivity|].
  intros (z & Hcode & Hspec). vm_compute in Hcode, Hspec. congruence.
Qed.

(** C10. [fromInput] is not total: the empty string and ["abc"] hold no
    decimal literal, and for every input that holds none after its white
    space, at every denomination, the parsed value, its product with the
    denomination and the rounded product are all [NaN], and the conversion
    to a bigint throws an exception whose name is [RangeError]: no integer
    and no error value is returned. *)
Theorem fromInput_not_a_number :
  (JS.scanDecimalLiteral "" = None /\ JS.scanDecimalLiteral "abc" = None)
  /\ forall (inputValue : string) (denomination : JS.Number),
      JS.scanDecimalLiteral inputValue = None ->
      JS.parseFloat inputValue = JS.NaN
      /\ JS.Math_round (JS.mul (JS.parseFloat inputValue) denomination) = JS.NaN
      /\ (exists e, Coin.fromInput inputValue denomination = JS.Throw e
                    /\ JS.err_name e = Some "RangeError")
      /\ forall z, Coin.fromInput inputValue denomination <> JS.Ok z.
Proof.
  split; [split; reflexivity|].
  intros inputValue denomination Hscan.
  unfold Coin.fromInput, JS.parseFloat. rewrite Hscan.
  split; [reflexivity|]. split; [reflexivity|].
  split; [exists JS.RangeError; split; reflexivity|]. intros z. discriminate.
Qed.

(** The input ["abc"] at the denomination [1e9], and the input made of a
    no-break space alone. *)
Lemma fromInput_not_a_number_witness :
  JS.scanDecimalLiteral "abc" = None
  /\ JS.parseFloat "abc" = JS.NaN
  /\ (forall z, Coin.fromInput "abc" Coin.lit_1e9 <> JS.Ok z)
  /\ JS.scanDecimalLiteral (String "194" (String "160" "")) = None
  /\ exists e, Coin.fromInput (String "194" (String "160" "")) Coin.lit_1e9
               = JS.Throw e
               /\ JS.err_name e = Some "RangeError".
Proof.
  pose proof (proj2 fromInput_not_a_number "abc" Coin.lit_1e9 eq_refl)
    as (Hnan & _ & _ & Hno).
  pose proof (proj2 fromInput_not_a_number (String "194" (String "160" ""))
                Coin.lit_1e9 eq_refl) as (_ & _ & Hthrow & _).
  split; [reflexivity|]. split; [exact Hnan|]. split; [exact Hno|].
  split; [reflexivity|exact Hthrow].
Defined.

(** White space beyond the ASCII range is skipped as well: a no-break space
    in front of ["5"] parses as 5. *)
Example fromInput_no_break_space :
  Coin.fromInput (String "194" (String "160" "5")) Coin.lit_1 = JS.Ok 5.
Proof. vm_compute. reflexivity. Qed.


(* ===================================================================== *)
(** * Deduplication of the references: [deduplicate] *)
(* ===================================================================== *)

Section DeduplicateFacts.
Import TxResults Specification.

Lemma indexOf_from_notin (x : string) (pre r : list string) (i : Z) :
  x ∉ pre ->
  indexOf_from x (pre ++ r) i = indexOf_from x r (i + Z.of_nat (length pre)).
Proof.
  revert i. induction pre as [|y pre IH]; intros i Hx; simpl.
  - f_equal. lia.
  - apply not_elem_of_cons in Hx as [Hne Hx].
    rewrite bool_decide_eq_false_2 by congruence.
    rewrite IH by assumption. f_equal. lia.
Qed.

Lemma indexOf_from_in (x : string) (pre r : list string) (i : Z) :
  x ∈ pre ->
  i <= indexOf_from x (pre ++ r) i < i + Z.of_nat (length pre).
Proof.
  revert i. induction pre as [|y pre IH]; intros i Hx; simpl.
  - apply elem_of_nil in Hx as [].
  - case_bool_decide as Hy; [lia|].
    apply elem_of_cons in Hx as [->|Hx]; [congruence|].
    specialize (IH (i + 1) Hx). lia.
Qed.

Lemma first_occurrences_ext (l s1 s2 : list string) :
  (forall x, x ∈ s1 <-> x ∈ s2) ->
  first_occurrences s1 l = first_occurrences s2 l.
Proof.
  revert s1 s2. induction l as [|y l IH]; intros s1 s2 Hs; simpl; [reflexivity|].
  rewrite (bool_decide_ext (y ∈ s1) (y ∈ s2)) by apply Hs.
  case_bool_decide; [apply IH, Hs|].
  f_equal. apply IH. intros x. rewrite !elem_of_cons, Hs. reflexivity.
Qed.

(** The callback of [deduplicate] keeps a digest exactly at its first
    occurrence. *)
Lemma filter_indexed_first_occurrences (l pre seen : list string) :
  (forall x, x ∈ seen <-> x ∈ pre) ->
  filter_indexed (fun value index => indexOf value (pre ++ l) =? index)
    l (Z.of_nat (length pre))
  = first_occurrences seen l.
Proof.
  revert pre seen. induction l as [|x l IH]; intros pre seen Hseen; simpl.
  - reflexivity.
  - assert (Hnext : filter_indexed
                      (fun value index => indexOf value (pre ++ x :: l) =? index)
                      l (Z.of_nat (length pre) + 1)
                    = first_occurrences (x :: seen) l).
    { replace (pre ++ x :: l) with ((pre ++ [x]) ++ l)
        by (rewrite <- app_assoc; reflexivity).
      replace (Z.of_nat (length pre) + 1) with (Z.of_nat (length (pre ++ [x])))
        by (rewrite length_app; simpl; lia).
      apply IH. intros y. rewrite elem_of_cons, elem_of_app, list_elem_of_singleton, Hseen.
      tauto. }
    unfold indexOf at 1. case_bool_decide as Hin.
    + pose proof (indexOf_from_in x pre (x :: l) 0 (proj1 (Hseen x) Hin)) as Hlt.
      destruct (Z.eqb_spec (indexOf_from x (pre ++ x :: l) 0)
                           (Z.of_nat (length pre))) as [Heq|_]; [lia|].
      rewrite Hnext. apply first_occurrences_ext.
      intros y. rewrite elem_of_cons. split; [intros [->|]; assumption|tauto].
    + assert (Hnot : x ∉ pre) by (rewrite <- Hseen; assumption).
      rewrite indexOf_from_notin by assumption. simpl.
      rewrite bool_decide_eq_true_2 by reflexivity.
      rewrite Z.eqb_refl, Hnext. reflexivity.
Qed.

(** The code computes the specification's [dedupe]. *)
Lemma deduplicate_dedupe (results : list (Z * string)) :
  deduplicate (Some results) = dedupe results.
Proof.
  unfold deduplicate, dedupe.
  apply (filter_indexed_first_occurrences (map snd results) [] []).
  reflexivity.
Qed.

Lemma elem_of_first_occurrences (l seen : list string) (x : string) :
  x ∈ first_occurrences seen l <-> x ∈ l /\ x ∉ seen.
Proof.
  revert seen. induction l as [|y l IH]; intros seen; simpl.
  - rewrite elem_of_nil. tauto.
  - case_bool_decide as Hy.
    + rewrite IH, elem_of_cons. split; [tauto|].
      intros [[->|Hx] Hn]; [contradiction|tauto].
    + rewrite !elem_of_cons, IH, not_elem_of_cons.
      destruct (decide (x = y)) as [->|Hne]; tauto.
Qed.

Lemma NoDup_first_occurrences (l seen : list string) :
  NoDup (first_occurrences seen l).
Proof.
  revert seen. induction l as [|y l IH]; intros seen; simpl.
  - constructor.
  - case_bool_decide; [apply IH|].
    constructor; [|apply IH].
    rewrite elem_of_first_occurrences, not_elem_of_cons. tauto.
Qed.

Lemma length_first_occurrences (l seen : list string) :
  (length (first_occurrences seen l) <= length l)%nat.
Proof.
  revert seen. induction l as [|y l IH]; intros seen; simpl; [lia|].
  case_bool_decide; [specialize (IH seen)|specialize (IH (y :: seen))];
    simpl; lia.
Qed.

Lemma first_occurrences_app (l1 l2 seen : list string) :
  first_occurrences seen (l1 ++ l2)
  = first_occurrences seen l1 ++ first_occurrences (l1 ++ seen) l2.
Proof.
  revert seen. induction l1 as [|y l1 IH]; intros seen; simpl; [reflexivity|].
  case_bool_decide as Hy; rewrite IH; simpl.
  - f_equal. apply first_occurrences_ext. intros x.
    rewrite elem_of_cons, !elem_of_app.
    split; [tauto|]. intros [->|[?|?]]; tauto.
  - do 2 f_equal. apply first_occurrences_ext. intros x.
    rewrite elem_of_cons, !elem_of_app, elem_of_cons. tauto.
Qed.
End DeduplicateFacts.

(** C5. For every reference list, [deduplicate] returns each digest of the
    list exactly once ([NoDup], same members), in the order of the first
    occurrences (a digest comes right after the distinct digests met before
    its first occurrence), and never more digests than there are
    references; it is the specification's [dedupe].  The result is a
    function of the argument alone; without a list it is empty. *)
Theorem deduplicate_first_occurrence_order (results : list (Z * string)) :
  let digests := map snd results in
  let out := TxResults.deduplicate (Some results) in
  NoDup out
  /\ (forall d, d ∈ out <-> d ∈ digests)
  /\ (forall l1 d l2, digests = l1 ++ d :: l2 -> d ∉ l1 ->
      exists out1 out2,
        out = out1 ++ d :: out2
        /\ (forall x, x ∈ out1 <-> x ∈ l1)
        /\ (forall x, x ∈ out2 -> x ∈ l2 /\ (x ∉ l1) /\ x <> d))
  /\ (length out <= length results)%nat
  /\ out = Specification.dedupe results
  /\ TxResults.deduplicate None = [].
Proof.
  cbv zeta. rewrite deduplicate_dedupe. unfold Specification.dedupe.
  split; [apply NoDup_first_occurrences|].
  split.
  { intros d. rewrite elem_of_first_occurrences, elem_of_nil. tauto. }
  split.
  { intros l1 d l2 -> Hd.
    exists (Specification.first_occurrences [] l1),
           (Specification.first_occurrences (d :: l1 ++ []) l2).
    split.
    - rewrite first_occurrences_app. simpl.
      rewrite bool_decide_eq_false_2; [reflexivity|].
      rewrite elem_of_app, elem_of_nil. tauto.
    - split; intros x; rewrite elem_of_first_occurrences.
      + rewrite elem_of_nil. tauto.
      + rewrite not_elem_of_cons, elem_of_app, elem_of_nil. tauto. }
  split.
  { etransitivity; [apply length_first_occurrences|].
    rewrite length_map. reflexivity. }
  split; reflexivity.
Qed.

(** Four references, the first digest repeated: ["d2"] comes after the two
    distinct digests met before it. *)
Lemma deduplicate_first_occurrence_order_witness :
  TxResults.deduplicate (Some [(3, "d3"); (1, "d1"); (3, "d3"); (2, "d2")])
  = ["d3"; "d1"; "d2"]
  /\ exists out1 out2,
      TxResults.deduplicate (Some [(3, "d3"); (1, "d1"); (3, "d3"); (2, "d2")])
      = out1 ++ "d2" :: out2
      /\ (forall x, x ∈ out1 <-> x ∈ ["d3"; "d1"; "d3"])
      /\ (forall x, x ∈ out2 -> x ∈ [] /\ (x ∉ ["d3"; "d1"; "d3"]) /\ x <> "d2").
Proof.
  split; [vm_compute; reflexivity|].
  apply (proj1 (proj2 (proj2 (deduplicate_first_occurrence_order
           [(3, "d3"); (1, "d1"); (3, "d3"); (2, "d2")])))
           ["d3"; "d1"; "d3"] "d2" []).
  - reflexivity.
  - apply (bool_decide_unpack _). vm_compute. exact I.
Defined.

(* ===================================================================== *)
(** * The stable sort *)
(* ===================================================================== *)

Section SortFacts.
Import TxResults.
Context {A : Type} (key : A -> Z).

Lemma sort_insert_Permutation (compare : A -> A -> Z) (a : A) (l : list A) :
  sort_insert compare a l ≡ₚ a :: l.
Proof.
  induction l as [|b l IH]; simpl; [reflexivity|].
  destruct (compare a b <=? 0); [reflexivity|].
  rewrite IH. apply Permutation_swap.
Qed.

Lemma Array_sort_Permutation (compare : A -> A -> Z) (l : list A) :
  Array_sort compare l ≡ₚ l.
Proof.
  induction l as [|a l IH]; simpl; [reflexivity|].
  rewrite sort_insert_Permutation, IH. reflexivity.
Qed.

Lemma sort_insert_sorted (a : A) (l : list A) :
  StronglySorted (fun x y => key y <= key x) l ->
  StronglySorted (fun x y => key y <= key x) (sort_insert (fun a b => key b - key a) a l).
Proof.
  induction 1 as [|b l Hs IH Hb]; simpl.
  - repeat constructor.
  - destruct (Z.leb_spec (key b - key a) 0) as [Hle|Hgt].
    + constructor; [constructor; assumption|].
      constructor; [lia|].
      eapply Forall_impl; [exact Hb|]. simpl. intros x Hx. lia.
    + constructor; [assumption|].
      rewrite sort_insert_Permutation. constructor; [lia|assumption].
Qed.

Lemma Array_sort_sorted (l : list A) :
  StronglySorted (fun x y => key y <= key x) (Array_sort (fun a b => key b - key a) l).
Proof.
  induction l as [|a l IH]; simpl; [constructor|].
  apply sort_insert_sorted, IH.
Qed.

Lemma sorted_strict (l : list A) :
  StronglySorted (fun x y => key y <= key x) l ->
  NoDup (map key l) ->
  StronglySorted (fun x y => key y < key x) l.
Proof.
  induction 1 as [|a l Hs IH Ha]; simpl; intros Hnd; [constructor|].
  apply NoDup_cons in Hnd as [Hnotin Hnd].
  constructor; [apply IH, Hnd|].
  apply Forall_forall. intros x Hx.
  rewrite Forall_forall in Ha. specialize (Ha x Hx).
  destruct (decide (key x = key a)) as [Heq|Hne]; [|lia].
  exfalso. apply Hnotin. rewrite <- Heq.
  apply (list_elem_of_fmap_2 key), Hx.
Qed.

Lemma StronglySorted_key (l : list A) :
  StronglySorted (fun x y => key y < key x) l
  <-> StronglySorted (fun x y : Z => y < x) (map key l).
Proof.
  induction l as [|a l IH]; simpl.
  - split; constructor.
  - split; intros Hs; apply StronglySorted_inv in Hs as [Hs Ha];
      (constructor; [apply IH, Hs|]).
    + rewrite Forall_map. exact Ha.
    + rewrite Forall_map in Ha. exact Ha.
Qed.

End SortFacts.

(* ===================================================================== *)
(** * Reconciliation of the effects *)
(* ===================================================================== *)

Section ReconcileFacts.
Import JS TxResults Specification.

Lemma mapM_Ok {A B} (f : A -> Result B) (xs : list A) (ys : list B) :
  mapM f xs = Ok ys -> Forall2 (fun x y => f x = Ok y) xs ys.
Proof.
  revert ys. induction xs as [|x xs IH]; simpl; intros ys.
  - intros [= <-]. constructor.
  - destruct (f x) as [y|e] eqn:Hx; simpl; [|discriminate].
    destruct (mapM f xs) as [ys'|e]; simpl; [|discriminate].
    intros [= <-]. constructor; [assumption|apply IH; reflexivity].
Qed.

(** What an entry owes to its effect and to the references. *)
Lemma toTxResult_Some (address : string) (transactions : list (Z * string))
    (txEff : TransactionEffectsResponse) (entry : TxResultState) :
  toTxResult address transactions txEff = Ok (Some entry) ->
  txId entry = getTransactionDigest (certificate txEff)
  /\ (seq entry, txId entry) ∈ transactions
  /\ ~ multiOperation txEff.
Proof.
  unfold toTxResult, multiOperation.
  destruct (filter _ transactions) as [|[seq0 digest] rest] eqn:Hf; [discriminate|].
  assert (Hin : (seq0, digest) ∈ filter
            (fun transactionId : Z * string =>
               transactionId.2 = getTransactionDigest (certificate txEff))
            transactions) by (rewrite Hf; left).
  apply list_elem_of_filter in Hin as [Hd Hin]. simpl in Hd.
  destruct (Z.ltb_spec 1 (Z.of_nat (length (getTransactions (certificate txEff)))))
    as [|Hle]; [discriminate|].
  destruct (getTransactions (certificate txEff)) as [|txn txns]; [discriminate|].
  intros [= <-]. simpl. split; [assumption|]. split; [assumption|].
  simpl in Hle. lia.
Qed.

(** A multi-operation effect whose digest is among the references yields
    no entry and no exception. *)
Lemma toTxResult_multiOperation (address : string)
    (transactions : list (Z * string)) (txEff : TransactionEffectsResponse) :
  multiOperation txEff ->
  getTransactionDigest (certificate txEff) ∈ map snd transactions ->
  toTxResult address transactions txEff = Ok None.
Proof.
  unfold toTxResult, multiOperation. intros Hm Hin.
  apply list_elem_of_fmap in Hin as ([seq0 digest] & Hd & Hin). simpl in Hd.
  destruct (filter _ transactions) as [|[seq1 digest1] rest] eqn:Hf.
  - exfalso. eapply (filter_nil_not_elem_of _ _ (seq0, digest) Hf); [|exact Hin].
    simpl. congruence.
  - destruct (Z.ltb_spec 1 (Z.of_nat (length (getTransactions (certificate txEff)))))
      as [|Hle]; [reflexivity|lia].
Qed.
End ReconcileFacts.

Section ThunkFacts.
Import JS TxResults Specification.

Lemma enrichEntry_frame (txObjects : option (list SuiObject))
    (itm itm' : TxResultState) :
  enrichEntry txObjects itm = Ok itm' ->
  (to itm', seq itm', txId itm', status itm', txGas itm', kind itm', from itm',
   amount itm', timestampMs itm', objectId itm', isSender itm', error itm',
   callFunctionName itm')
  = (to itm, seq itm, txId itm, status itm, txGas itm, kind itm, from itm,
     amount itm, timestampMs itm, objectId itm, isSender itm, error itm,
     callFunctionName itm).
Proof.
  unfold enrichEntry. destruct (findObject txObjects itm) as [obj|].
  - destruct (data_fields obj); [|discriminate]. intros [= <-]. reflexivity.
  - intros [= <-]. reflexivity.
Qed.

Lemma enrich_Ok (txObjects : option (list SuiObject))
    (resp resp' : list TxResultState) :
  enrich txObjects resp = Ok resp' ->
  Forall2 (fun itm itm' => enrichEntry txObjects itm = Ok itm') resp resp'.
Proof. apply mapM_Ok. Qed.

Lemma map_seq_enrich (txObjects : option (list SuiObject))
    (resp resp' : list TxResultState) :
  enrich txObjects resp = Ok resp' -> map seq resp' = map seq resp.
Proof.
  intros H. apply enrich_Ok in H.
  induction H as [|itm itm' resp resp' Hitm _ IH]; [reflexivity|].
  simpl. rewrite IH. f_equal.
  pose proof (enrichEntry_frame txObjects itm itm' Hitm) as H. congruence.
Qed.

Lemma map_txId_enrich (txObjects : option (list SuiObject))
    (resp resp' : list TxResultState) :
  enrich txObjects resp = Ok resp' -> map txId resp' = map txId resp.
Proof.
  intros H. apply enrich_Ok in H.
  induction H as [|itm itm' resp resp' Hitm _ IH]; [reflexivity|].
  simpl. rewrite IH. f_equal.
  pose proof (enrichEntry_frame txObjects itm itm' Hitm) as H. congruence.
Qed.

Lemma enrich_origin (txObjects : option (list SuiObject))
    (resp resp' : list TxResultState) (entry : TxResultState) :
  enrich txObjects resp = Ok resp' -> entry ∈ resp' ->
  exists itm, itm ∈ resp /\ enrichEntry txObjects itm = Ok entry.
Proof.
  intros H. apply enrich_Ok in H.
  induction H as [|itm itm' resp resp' Hitm _ IH]; intros Hin.
  - apply elem_of_nil in Hin as [].
  - apply elem_of_cons in Hin as [->|Hin].
    + exists itm. split; [left|exact Hitm].
    + destruct (IH Hin) as (x & Hx & Hok). exists x. split; [right|]; assumption.
Qed.

(** The entries of a successful reconciliation, before the sort: their
    digests are digests of the effects, in the order of the effects, and
    each entry carries a reference of the list. *)
Lemma reconcile_Ok (address : string) (transactions : list (Z * string))
    (txEffs : list TransactionEffectsResponse) (resp : list TxResultState) :
  reconcile address transactions txEffs = Ok resp ->
  exists entries,
    resp = Array_sort (fun a b => seq b - seq a) entries
    /\ sublist (map txId entries)
               (map (fun txEff => getTransactionDigest (certificate txEff)) txEffs)
    /\ Forall (fun entry => (seq entry, txId entry) ∈ transactions) entries.
Proof.
  unfold reconcile.
  destruct (mapM (toTxResult address transactions) txEffs) as [ys|e] eqn:Hm;
    simpl; [|discriminate].
  intros [= <-]. exists (omap id ys). split; [reflexivity|].
  apply mapM_Ok in Hm.
  induction Hm as [|txEff y txEffs ys Hy _ [IHs IHf]]; simpl.
  - split; constructor.
  - destruct y as [entry|]; simpl.
    + apply toTxResult_Some in Hy as (Hid & Hin & _).
      rewrite Hid. split; [apply sublist_skip, IHs|].
      constructor; assumption.
    + split; [apply sublist_cons, IHs|assumption].
Qed.

Lemma NoDup_fmap_inj_on {A B} (f : A -> B) (l : list A) (x y : A) :
  NoDup (map f l) -> x ∈ l -> y ∈ l -> f x = f y -> x = y.
Proof.
  induction l as [|a l IH]; simpl; intros Hnd Hx Hy Hf.
  - apply elem_of_nil in Hx as [].
  - apply NoDup_cons in Hnd as [Hnotin Hnd].
    apply elem_of_cons in Hx as [->|Hx]; apply elem_of_cons in Hy as [->|Hy].
    + reflexivity.
    + exfalso. apply Hnotin. rewrite Hf. apply (list_elem_of_fmap_2 f), Hy.
    + exfalso. apply Hnotin. rewrite <- Hf. apply (list_elem_of_fmap_2 f), Hx.
    + apply IH; assumption.
Qed.

Lemma reconcile_sorted (address : string) (transactions : list (Z * string))
    (txEffs : list TransactionEffectsResponse) (resp : list TxResultState) :
  sequence_numbers_unique transactions ->
  NoDup (map (fun txEff => getTransactionDigest (certificate txEff)) txEffs) ->
  reconcile address transactions txEffs = Ok resp ->
  StronglySorted (fun a b => seq b < seq a) resp /\ NoDup (map txId resp).
Proof.
  intros Huniq Hnd Hr.
  apply reconcile_Ok in Hr as (entries & -> & Hsub & Hin).
  assert (Hids : NoDup (map txId entries)) by (eapply sublist_NoDup; eassumption).
  assert (Hseqs : NoDup (map seq entries)).
  { apply NoDup_fmap_2_strong; [|eapply NoDup_fmap_1; exact Hids].
    intros a b Ha Hb Hab.
    apply (NoDup_fmap_inj_on txId entries a b Hids Ha Hb).
    rewrite Forall_forall in Hin.
    unfold sequence_numbers_unique in Huniq. rewrite Forall_forall in Huniq.
    specialize (Huniq _ (Hin a Ha)). rewrite Forall_forall in Huniq.
    apply (Huniq _ (Hin b Hb)). exact Hab. }
  split.
  - apply sorted_strict; [apply Array_sort_sorted|].
    rewrite (Array_sort_Permutation _ entries). exact Hseqs.
  - rewrite (Array_sort_Permutation _ entries). exact Hids.
Qed.

Lemma getTransactionsByAddress_Ok (api : Api) (address : option string)
    (payload : list TxResultState) :
  getTransactionsByAddress api address = Ok payload ->
  payload = []
  \/ exists a raw txEffs resp,
       address = Some a
       /\ getTransactionsForAddress api a = Ok raw
       /\ getTransactionWithEffectsBatch api (deduplicate (Some (omap id raw)))
          = Ok txEffs
       /\ reconcile a (omap id raw) txEffs = Ok resp
       /\ enrich (batchFetchObject api (objectIDs_of resp)) resp = Ok payload.
Proof.
  unfold getTransactionsByAddress.
  destruct address as [a|]; [|intros [= <-]; left; reflexivity].
  destruct (truthy_string a); simpl; [|intros [= <-]; left; reflexivity].
  destruct (getTransactionsForAddress api a) as [raw|e] eqn:Hraw; simpl;
    [|discriminate].
  destruct (omap id raw) as [|t transactions] eqn:Htx;
    [intros [= <-]; left; reflexivity|].
  destruct (getTransactionWithEffectsBatch api _) as [txEffs|e] eqn:Heffs; simpl;
    [|discriminate].
  destruct (reconcile a (t :: transactions) txEffs) as [resp|e] eqn:Hresp; simpl;
    [|discriminate].
  destruct (enrich _ resp) as [txnResp|e] eqn:Henrich; simpl; [|discriminate].
  intros [= <-]. right. exists a, raw, txEffs, resp.
  rewrite Htx. repeat split; assumption.
Qed.

End ThunkFacts.

Section MultiOperationFacts.
Import JS TxResults Specification.

Lemma elem_of_deduplicate (transactions : list (Z * string)) (d : string) :
  d ∈ deduplicate (Some transactions) <-> d ∈ map snd transactions.
Proof.
  rewrite deduplicate_dedupe. unfold dedupe.
  rewrite elem_of_first_occurrences, elem_of_nil. tauto.
Qed.

Lemma NoDup_deduplicate (transactions : list (Z * string)) :
  NoDup (deduplicate (Some transactions)).
Proof.
  rewrite deduplicate_dedupe. apply NoDup_first_occurrences.
Qed.

(** Mapping over the effects with or without the multi-operation ones:
    the same exception, or the same entries once the [null]s are gone. *)
Lemma mapM_withoutMultiOperation (address : string)
    (transactions : list (Z * string)) (txEffs : list TransactionEffectsResponse) :
  (forall txEff, txEff ∈ txEffs -> multiOperation txEff ->
     getTransactionDigest (certificate txEff) ∈ map snd transactions) ->
  match mapM (toTxResult address transactions) txEffs,
        mapM (toTxResult address transactions)
             (filter (fun txEff => ~ multiOperation txEff) txEffs) with
  | Ok ys, Ok ys' => omap id ys = omap id ys'
  | Throw e, Throw e' => e = e'
  | _, _ => False
  end.
Proof.
  induction txEffs as [|txEff txEffs IH]; intros Hreq; [reflexivity|].
  assert (IH' := IH (fun t Ht => Hreq t (list_elem_of_further _ _ _ Ht))). clear IH.
  destruct (decide (multiOperation txEff)) as [Hm|Hs].
  - rewrite filter_cons_False by tauto. simpl.
    rewrite (toTxResult_multiOperation address transactions txEff Hm)
      by (apply Hreq; [left|assumption]).
    simpl.
    destruct (mapM _ txEffs) as [ys|e], (mapM _ (filter _ txEffs)) as [ys'|e'];
      simpl; assumption.
  - rewrite filter_cons_True by assumption. simpl.
    destruct (toTxResult address transactions txEff) as [y|e]; simpl; [|reflexivity].
    destruct (mapM _ txEffs) as [ys|e], (mapM _ (filter _ txEffs)) as [ys'|e'];
      simpl; try assumption.
    destruct y as [entry|]; cbn in *; [f_equal|]; exact IH'.
Qed.

Lemma reconcile_withoutMultiOperation (address : string)
    (transactions : list (Z * string)) (txEffs : list TransactionEffectsResponse) :
  (forall txEff, txEff ∈ txEffs -> multiOperation txEff ->
     getTransactionDigest (certificate txEff) ∈ map snd transactions) ->
  reconcile address transactions txEffs
  = reconcile address transactions
      (filter (fun txEff => ~ multiOperation txEff) txEffs).
Proof.
  intros Hreq. unfold reconcile.
  pose proof (mapM_withoutMultiOperation address transactions txEffs Hreq) as H.
  destruct (mapM _ txEffs) as [ys|e], (mapM _ (filter _ txEffs)) as [ys'|e'];
    simpl; try contradiction; congruence.
Qed.

(** Every entry of a reconciliation comes from a single-operation effect
    of the answer. *)
Lemma reconcile_origin (address : string) (transactions : list (Z * string))
    (txEffs : list TransactionEffectsResponse) (resp : list TxResultState)
    (entry : TxResultState) :
  reconcile address transactions txEffs = Ok resp ->
  entry ∈ resp ->
  exists txEff, txEff ∈ txEffs /\ ~ multiOperation txEff
                /\ toTxResult address transactions txEff = Ok (Some entry).
Proof.
  unfold reconcile.
  destruct (mapM (toTxResult address transactions) txEffs) as [ys|e] eqn:Hm;
    simpl; [|discriminate].
  intros [= <-]. rewrite Array_sort_Permutation.
  rewrite list_elem_of_omap. intros (y & Hy & Hid). simpl in Hid. subst y.
  apply mapM_Ok in Hm.
  induction Hm as [|txEff y txEffs ys Hty _ IH].
  - apply elem_of_nil in Hy as [].
  - apply elem_of_cons in Hy as [<-|Hy].
    + exists txEff. split; [left|]. split; [|assumption].
      apply toTxResult_Some in Hty. tauto.
    + destruct (IH Hy) as (t & Ht & Hrest). exists t. split; [right; assumption|assumption].
Qed.
End MultiOperationFacts.

Lemma getTransactionsByAddress_total_example :
  exists payload,
    TxResults.getTransactionsByAddress Examples.node (Some "0xa") = JS.Ok payload.
Proof. eexists. vm_compute. reflexivity. Defined.

Lemma getTransactionsByAddress_unordered_example :
  exists payload,
    TxResults.getTransactionsByAddress Examples.unordered (Some "0xa")
    = JS.Ok payload.
Proof. eexists. vm_compute. reflexivity. Defined.

(** C6, as the code has it.  When the sequence numbers of the references
    are unique and the node answers a duplicate-free request without
    repeating a digest, every cycle that completes successfully commits its
    payload, and the committed list is strictly descending by sequence
    number and holds no digest twice. *)
Theorem cycle_sorted_unique (api : TxResults.Api) (address : option string)
    (state : TxResults.TransactionManualState)
    (payload : list TxResults.TxResultState) :
  (forall a raw, TxResults.getTransactionsForAddress api a = JS.Ok raw ->
     Specification.sequence_numbers_unique (omap id raw)) ->
  (forall digests txEffs,
     NoDup digests ->
     TxResults.getTransactionWithEffectsBatch api digests = JS.Ok txEffs ->
     NoDup (map (fun txEff => TxResults.getTransactionDigest
                                (TxResults.certificate txEff)) txEffs)) ->
  TxResults.getTransactionsByAddress api address = JS.Ok payload ->
  let committed := TxResults.latestTx (TxResults.cycle api address state) in
  committed = payload
  /\ TxResults.loading (TxResults.cycle api address state) = false
  /\ TxResults.st_error (TxResults.cycle api address state) = None
  /\ StronglySorted (fun a b => TxResults.seq b < TxResults.seq a) committed
  /\ NoDup (map TxResults.txId committed).
Proof.
  intros Huniq Hnode Hok. cbv zeta. unfold TxResults.cycle. rewrite Hok. simpl.
  split; [reflexivity|]. split; [reflexivity|]. split; [reflexivity|].
  apply getTransactionsByAddress_Ok in Hok
    as [->|(a & raw & txEffs & resp & _ & Hraw & Heffs & Hresp & Henrich)].
  - split; constructor.
  - destruct (reconcile_sorted a (omap id raw) txEffs resp) as [Hs Hn].
    + eapply Huniq, Hraw.
    + eapply Hnode; [apply NoDup_deduplicate|exact Heffs].
    + exact Hresp.
    + split.
      * apply (StronglySorted_key TxResults.seq).
        rewrite (map_seq_enrich _ _ _ Henrich).
        apply (StronglySorted_key TxResults.seq). exact Hs.
      * rewrite (map_txId_enrich _ _ _ Henrich). exact Hn.
Qed.

(** A node that lists the references 2, 5 and 3, in that order, at the
    address ["0xa"]: the cycle commits the entries in the order 5, 3, 2. *)
Lemma cycle_sorted_unique_witness :
  let committed :=
    TxResults.latestTx
      (TxResults.cycle Examples.unordered (Some "0xa") TxResults.initialState) in
  map TxResults.seq committed = [5; 3; 2]
  /\ map TxResults.txId committed = ["d5"; "d3"; "d2"]
  /\ StronglySorted (fun a b => TxResults.seq b < TxResults.seq a) committed
  /\ NoDup (map TxResults.txId committed).
Proof.
  cbv zeta. split; [vm_compute; reflexivity|]. split; [vm_compute; reflexivity|].
  destruct (getTransactionsByAddress_unordered_example) as [payload Hpayload].
  refine (proj2 (proj2 (proj2
            (cycle_sorted_unique Examples.unordered (Some "0xa")
               TxResults.initialState payload _ _ Hpayload)))).
  - intros a raw [= <-]. apply (bool_decide_unpack _). vm_compute. exact I.
  - intros digests txEffs Hnd [= <-]. rewrite map_map. simpl.
    rewrite map_id. exact Hnd.
Defined.

(** C6, as stated, fails when the node repeats an effect in its answer: the
    one reference has a unique sequence number, the cycle completes
    successfully, and the committed list holds the digest ["d3"] twice, with
    the sequence number 1 twice. *)
Lemma cycle_repeated_effect :
  let committed :=
    TxResults.latestTx
      (TxResults.cycle Examples.repeating (Some "0xa") TxResults.initialState) in
  TxResults.getTransactionsForAddress Examples.repeating "0xa"
  = JS.Ok [Some (1, "d3")]
  /\ Specification.sequence_numbers_unique [(1, "d3")]
  /\ TxResults.st_error
       (TxResults.cycle Examples.repeating (Some "0xa") TxResults.initialState)
     = None
  /\ map TxResults.txId committed = ["d3"; "d3"]
  /\ map TxResults.seq committed = [1; 1]
  /\ ~ NoDup (map TxResults.txId committed)
  /\ ~ StronglySorted (fun a b => TxResults.seq b < TxResults.seq a) committed.
Proof.
  cbv zeta.
  assert (Hids : map TxResults.txId
                   (TxResults.latestTx
                      (TxResults.cycle Examples.repeating (Some "0xa")
                         TxResults.initialState)) = ["d3"; "d3"])
    by (vm_compute; reflexivity).
  assert (Hseqs : map TxResults.seq
                    (TxResults.latestTx
                       (TxResults.cycle Examples.repeating (Some "0xa")
                          TxResults.initialState)) = [1; 1])
    by (vm_compute; reflexivity).
  split; [reflexivity|].
  split; [repeat constructor|].
  split; [vm_compute; reflexivity|].
  split; [exact Hids|]. split; [exact Hseqs|]. split.
  - rewrite Hids. intros Hnd. apply NoDup_cons in Hnd as [Hnotin _].
    apply Hnotin. left.
  - intros Hs. apply (StronglySorted_key TxResults.seq) in Hs.
    rewrite Hseqs in Hs. apply StronglySorted_inv in Hs as [_ Hall].
    apply Forall_cons in Hall as [Hlt _]. lia.
Qed.

(** C7, as the code has it.  Provided the multi-operation effects of an
    answer are effects that were requested: such an effect yields no entry
    and no exception; the thunk returns what it returns when these effects
    are taken out of the answer, so the store ends the cycle in the same
    state, failed only if the remaining effects make it fail; and every
    entry of a fulfilled cycle comes from a single-operation effect of the
    answer. *)
Theorem multiOperation_dropped (api : TxResults.Api) (address : option string) :
  (forall digests txEffs txEff,
     TxResults.getTransactionWithEffectsBatch api digests = JS.Ok txEffs ->
     txEff ∈ txEffs ->
     Specification.multiOperation txEff ->
     TxResults.getTransactionDigest (TxResults.certificate txEff) ∈ digests) ->
  (forall a transactions txEff,
     Specification.multiOperation txEff ->
     TxResults.getTransactionDigest (TxResults.certificate txEff)
       ∈ map snd transactions ->
     TxResults.toTxResult a transactions txEff = JS.Ok None)
  /\ TxResults.getTransactionsByAddress api address
     = TxResults.getTransactionsByAddress
         (Specification.withoutMultiOperation api) address
  /\ (forall state,
        TxResults.cycle api address state
        = TxResults.cycle (Specification.withoutMultiOperation api) address state)
  /\ (forall payload entry,
        TxResults.getTransactionsByAddress api address = JS.Ok payload ->
        entry ∈ payload ->
        exists digests txEffs txEff,
          TxResults.getTransactionWithEffectsBatch api digests = JS.Ok txEffs
          /\ txEff ∈ txEffs
          /\ ~ Specification.multiOperation txEff
          /\ TxResults.txId entry
             = TxResults.getTransactionDigest (TxResults.certificate txEff)).
Proof.
  intros Hnode.
  assert (Hsame : TxResults.getTransactionsByAddress api address
                  = TxResults.getTransactionsByAddress
                      (Specification.withoutMultiOperation api) address).
  { unfold TxResults.getTransactionsByAddress. destruct address as [a|]; [|reflexivity].
    destruct (TxResults.truthy_string a); [|reflexivity]. simpl.
    destruct (TxResults.getTransactionsForAddress api a) as [raw|e]; [|reflexivity].
    simpl. destruct (omap id raw) as [|t transactions] eqn:Htx; [reflexivity|].
    destruct (TxResults.getTransactionWithEffectsBatch api _) as [txEffs|e] eqn:He;
      [|reflexivity].
    simpl. rewrite <- reconcile_withoutMultiOperation; [reflexivity|].
    intros txEff Hin Hm. apply elem_of_deduplicate. eapply Hnode; eassumption. }
  split; [intros a transactions txEff; apply toTxResult_multiOperation|].
  split; [exact Hsame|].
  split; [intros state; unfold TxResults.cycle; rewrite Hsame; reflexivity|].
  intros payload entry Hok Hin.
  apply getTransactionsByAddress_Ok in Hok
    as [->|(a & raw & txEffs & resp & _ & _ & Heffs & Hresp & Henrich)].
  - apply elem_of_nil in Hin as [].
  - destruct (enrich_origin _ _ _ _ Henrich Hin) as (itm & Hitm & Hentry').
    destruct (reconcile_origin a (omap id raw) txEffs resp itm Hresp Hitm)
      as (txEff & Ht & Hs & Hentry).
    exists (TxResults.deduplicate (Some (omap id raw))), txEffs, txEff.
    split; [exact Heffs|]. split; [exact Ht|]. split; [exact Hs|].
    apply toTxResult_Some in Hentry as [<- _].
    pose proof (enrichEntry_frame _ _ _ Hentry') as Hf. congruence.
Qed.

(** The sample node at the address ["0xa"]: the batch ["d1"] leaves no entry
    and the cycle is fulfilled. *)
Lemma multiOperation_dropped_witness :
  Specification.multiOperation (Examples.effect_of "d1")
  /\ TxResults.st_error
       (TxResults.cycle Examples.node (Some "0xa") TxResults.initialState) = None
  /\ map TxResults.txId
       (TxResults.latestTx
          (TxResults.cycle Examples.node (Some "0xa") TxResults.initialState))
     = ["d3"; "d2"]
  /\ TxResults.cycle Examples.node (Some "0xa") TxResults.initialState
     = TxResults.cycle (Specification.withoutMultiOperation Examples.node)
         (Some "0xa") TxResults.initialState.
Proof.
  split; [vm_compute; lia|]. split; [vm_compute; reflexivity|].
  split; [vm_compute; reflexivity|].
  refine (proj1 (proj2 (proj2
            (multiOperation_dropped Examples.node (Some "0xa") _)))
            TxResults.initialState).
  intros digests txEffs txEff [= <-] Hin _.
  apply list_elem_of_fmap in Hin as (d & -> & Hd). exact Hd.
Defined.

(** Without the batch, the cycle of the node [stray] is fulfilled. *)
Lemma stray_withoutMultiOperation :
  exists payload,
    TxResults.getTransactionsByAddress
      (Specification.withoutMultiOperation Examples.stray) (Some "0xa")
    = JS.Ok payload
    /\ map TxResults.txId payload = ["d3"].
Proof.
  unfold TxResults.getTransactionsByAddress.
  cbn [negb TxResults.truthy_string Specification.withoutMultiOperation
       TxResults.getTransactionsForAddress Examples.stray JS.bind
       TxResults.getTransactionWithEffectsBatch TxResults.batchFetchObject].
  change (omap id [Some (3, "d3")]) with [(3, "d3")]. cbn [JS.bind].
  rewrite filter_cons_True
    by (unfold Specification.multiOperation; simpl; lia).
  rewrite filter_cons_False
    by (unfold Specification.multiOperation; simpl; intros H; apply H; lia).
  rewrite filter_nil. eexists. split; vm_compute; reflexivity.
Qed.

(** C7, as stated, fails for a multi-operation effect that was not
    requested: the node lists the reference of ["d3"] alone and answers with
    the effects of ["d3"] and of the batch ["d1"]; the thunk throws a
    [TypeError] and the cycle ends failed, with no entry, while without the
    batch it is fulfilled with the entry of ["d3"]. *)
Lemma cycle_stray_multiOperation :
  let s := TxResults.cycle Examples.stray (Some "0xa") TxResults.initialState in
  let s' :=
    TxResults.cycle (Specification.withoutMultiOperation Examples.stray)
      (Some "0xa") TxResults.initialState in
  TxResults.getTransactionWithEffectsBatch Examples.stray ["d3"]
  = JS.Ok [Examples.effect_of "d3"; Examples.effect_of "d1"]
  /\ Specification.multiOperation (Examples.effect_of "d1")
  /\ TxResults.getTransactionsByAddress Examples.stray (Some "0xa")
     = JS.Throw JS.TypeError
  /\ TxResults.st_error s = Some JS.TypeError
  /\ TxResults.latestTx s = []
  /\ Specification.Failed s
  /\ TxResults.st_error s' = None
  /\ map TxResults.txId (TxResults.latestTx s') = ["d3"]
  /\ s <> s'.
Proof.
  cbv zeta.
  assert (Hthrow : TxResults.getTransactionsByAddress Examples.stray (Some "0xa")
                   = JS.Throw JS.TypeError) by (vm_compute; reflexivity).
  destruct stray_withoutMultiOperation as (payload & Hok & Hids).
  split; [reflexivity|]. split; [vm_compute; lia|]. split; [exact Hthrow|].
  unfold TxResults.cycle. rewrite Hthrow, Hok. simpl.
  split; [reflexivity|]. split; [reflexivity|].
  split; [repeat split; discriminate|].
  split; [reflexivity|]. split; [exact Hids|]. discriminate.
Qed.

(* ===================================================================== *)
(** * Enrichment with the fetched objects *)
(* ===================================================================== *)

Section EnrichFacts.
Import TxResults.

Lemma findObject_None (txObjects : option (list SuiObject)) (itm : TxResultState) :
  objectId itm = None
  \/ txObjects = None
  \/ (exists objs, txObjects = Some objs
        /\ forall obj, obj ∈ objs -> Some (reference_objectId obj) <> objectId itm) ->
  findObject txObjects itm = None.
Proof.
  unfold findObject. intros [Hid|[Hobjs|(objs & Hobjs & Hno)]].
  - rewrite Hid. destruct txObjects; reflexivity.
  - rewrite Hobjs. reflexivity.
  - rewrite Hobjs. destruct (objectId itm) as [oid|]; [|reflexivity].
    destruct (truthy_string oid); [|reflexivity].
    destruct (list_find _ objs) as [[i obj]|] eqn:Hfind; [|reflexivity].
    apply list_find_Some in Hfind as (Hi & Heq & _).
    exfalso. apply (Hno obj); [eapply list_elem_of_lookup_2; eassumption|].
    congruence.
Qed.

Lemma findObject_Some (txObjects : option (list SuiObject)) (itm : TxResultState)
    (obj : SuiObject) :
  findObject txObjects itm = Some obj ->
  exists objs, txObjects = Some objs /\ obj ∈ objs
               /\ objectId itm = Some (reference_objectId obj).
Proof.
  unfold findObject. destruct txObjects as [objs|]; [|discriminate].
  destruct (objectId itm) as [oid|]; [|discriminate].
  destruct (truthy_string oid); [|discriminate].
  destruct (list_find _ objs) as [[i o]|] eqn:Hfind; [|discriminate].
  simpl. intros [= <-]. apply list_find_Some in Hfind as (Hi & Heq & _).
  exists objs. split; [reflexivity|]. split; [|congruence].
  eapply list_elem_of_lookup_2; eassumption.
Qed.
(** The callback returns for an entry unless the object found has no
    [fields]. *)
Lemma enrichEntry_Ok (txObjects : option (list SuiObject)) (itm : TxResultState) :
  (forall obj, findObject txObjects itm = Some obj -> data_fields obj <> None) ->
  exists itm', enrichEntry txObjects itm = JS.Ok itm'.
Proof.
  intros Hfields. unfold enrichEntry.
  destruct (findObject txObjects itm) as [obj|]; [|eexists; reflexivity].
  specialize (Hfields obj eq_refl).
  destruct (data_fields obj); [eexists; reflexivity|congruence].
Qed.

Lemma enrich_total (txObjects : option (list SuiObject))
    (resp : list TxResultState) :
  (forall itm obj, itm ∈ resp -> findObject txObjects itm = Some obj ->
     data_fields obj <> None) ->
  exists resp', enrich txObjects resp = JS.Ok resp'.
Proof.
  unfold enrich. induction resp as [|itm resp IH]; intros Hfields.
  - exists []. reflexivity.
  - destruct (enrichEntry_Ok txObjects itm) as [itm' Hitm].
    { intros obj. apply Hfields. left. }
    destruct IH as [resp' Hresp].
    { intros x obj Hx. apply Hfields. right. exact Hx. }
    exists (itm' :: resp'). simpl. rewrite Hitm. simpl. rewrite Hresp. reflexivity.
Qed.

End EnrichFacts.

(** C8, as the code has it.  Whenever every object found for an entry has
    [fields], the enrichment returns; and whenever it returns, it keeps the
    list position by position: as many entries out as in; an entry without
    [objectId], or without an object of that id in the payload (or without
    payload), is returned as it is; and an entry with a match keeps every
    field but [description], [name], [url], [balance] and [coinSymbol],
    which come from the first object of that id. *)
Theorem enrich_frame (txObjects : option (list TxResults.SuiObject))
    (resp : list TxResults.TxResultState) :
  ((forall itm obj,
      itm ∈ resp -> TxResults.findObject txObjects itm = Some obj ->
      TxResults.data_fields obj <> None) ->
   exists resp', TxResults.enrich txObjects resp = JS.Ok resp')
  /\ forall resp', TxResults.enrich txObjects resp = JS.Ok resp' ->
     length resp' = length resp
     /\ forall (i : nat) (itm : TxResults.TxResultState),
      resp !! i = Some itm ->
      exists itm',
        resp' !! i = Some itm'
        /\ (TxResults.to itm', TxResults.seq itm', TxResults.txId itm',
            TxResults.status itm', TxResults.txGas itm', TxResults.kind itm',
            TxResults.from itm', TxResults.amount itm',
            TxResults.timestampMs itm', TxResults.objectId itm',
            TxResults.isSender itm', TxResults.error itm',
            TxResults.callFunctionName itm')
           = (TxResults.to itm, TxResults.seq itm, TxResults.txId itm,
              TxResults.status itm, TxResults.txGas itm, TxResults.kind itm,
              TxResults.from itm, TxResults.amount itm,
              TxResults.timestampMs itm, TxResults.objectId itm,
              TxResults.isSender itm, TxResults.error itm,
              TxResults.callFunctionName itm)
        /\ (TxResults.objectId itm = None
            \/ txObjects = None
            \/ (exists objs, txObjects = Some objs
                 /\ forall obj, obj ∈ objs ->
                      Some (TxResults.reference_objectId obj)
                      <> TxResults.objectId itm) ->
            itm' = itm)
        /\ (forall obj, TxResults.findObject txObjects itm = Some obj ->
            (exists objs, txObjects = Some objs /\ obj ∈ objs
               /\ TxResults.objectId itm
                  = Some (TxResults.reference_objectId obj))
            /\ exists fields,
                 TxResults.data_fields obj = Some fields
                 /\ TxResults.description itm' = TxResults.fields_description fields
                 /\ TxResults.name itm' = TxResults.fields_name fields
                 /\ TxResults.url itm' = TxResults.fields_url fields
                 /\ TxResults.balance itm' = TxResults.fields_balance fields
                 /\ TxResults.coinSymbol itm' = TxResults.coinSymbol_of obj).
Proof.
  split; [apply enrich_total|].
  intros resp' Hok. apply enrich_Ok in Hok.
  split; [symmetry; eapply Forall2_length; exact Hok|].
  intros i itm Hi.
  destruct (Forall2_lookup_l _ _ _ _ _ Hok Hi) as (itm' & Hi' & Hitm).
  exists itm'. split; [exact Hi'|].
  split; [apply (enrichEntry_frame txObjects), Hitm|].
  split.
  - intros Hnone. revert Hitm. unfold TxResults.enrichEntry.
    rewrite (findObject_None txObjects itm Hnone). congruence.
  - intros obj Hobj. split; [apply findObject_Some, Hobj|].
    revert Hitm. unfold TxResults.enrichEntry. rewrite Hobj.
    destruct (TxResults.data_fields obj) as [fields|]; [|discriminate].
    intros [= <-]. exists fields. repeat split.
Qed.

(** The sample entries and the sample object: the enrichment returns; the
    transfer, which has no object, is returned as it is; the call that
    minted the object keeps its digest and takes its name and its url from
    the object. *)
Lemma enrich_frame_witness :
  exists resp' itm0 itm1 itm1',
    TxResults.enrich (Some [Examples.nft]) Examples.entries = JS.Ok resp'
    /\ length resp' = length Examples.entries
    /\ Examples.entries !! 0%nat = Some itm0
    /\ TxResults.objectId itm0 = None
    /\ resp' !! 0%nat = Some itm0
    /\ Examples.entries !! 1%nat = Some itm1
    /\ TxResults.findObject (Some [Examples.nft]) itm1 = Some Examples.nft
    /\ resp' !! 1%nat = Some itm1'
    /\ TxResults.txId itm1' = TxResults.txId itm1
    /\ TxResults.name itm1' = Some "Example NFT"
    /\ TxResults.url itm1' = Some "ipfs://example".
Proof.
  destruct (enrich_frame (Some [Examples.nft]) Examples.entries) as [Htotal Hframe].
  destruct Htotal as [resp' Hok].
  { intros itm obj _ Hobj. apply findObject_Some in Hobj as (objs & [= <-] & Hin & _).
    apply list_elem_of_singleton in Hin. subst obj. discriminate. }
  destruct (Hframe resp' Hok) as [Hlen Hat].
  destruct (Examples.entries !! 0%nat) as [itm0|] eqn:H0;
    [|vm_compute in H0; discriminate].
  destruct (Examples.entries !! 1%nat) as [itm1|] eqn:H1;
    [|vm_compute in H1; discriminate].
  destruct (Hat 0%nat itm0 H0) as (itm0' & Hl0 & _ & Hsame & _).
  destruct (Hat 1%nat itm1 H1) as (itm1' & Hl1 & Hkeep & _ & Hmerge).
  assert (Hid0 : TxResults.objectId itm0 = None)
    by (vm_compute in H0; injection H0 as <-; reflexivity).
  assert (Hfind : TxResults.findObject (Some [Examples.nft]) itm1
                  = Some Examples.nft)
    by (vm_compute in H1; injection H1 as <-; vm_compute; reflexivity).
  destruct (Hmerge Examples.nft Hfind)
    as (_ & fields & Hfields & _ & Hname & Hurl & _).
  injection Hfields as <-.
  exists resp', itm0, itm1, itm1'.
  split; [exact Hok|]. split; [exact Hlen|]. split; [reflexivity|].
  split; [exact Hid0|].
  split; [rewrite Hl0; f_equal; apply Hsame; left; exact Hid0|].
  split; [reflexivity|]. split; [exact Hfind|]. split; [exact Hl1|].
  split; [congruence|]. split; [exact Hname|exact Hurl].
Defined.

(** C8, as stated, fails when the object found for an entry has no
    [fields]: the call of the sample entries has the object id ["0x77"], the
    payload holds an object of that id without [fields], and the enrichment
    throws a [TypeError] instead of returning one entry per entry; the cycle
    of the node that answers so ends failed, with no entry. *)
Lemma enrich_object_without_fields :
  let s := TxResults.cycle Examples.packaged (Some "0xa") TxResults.initialState in
  length Examples.entries = 2%nat
  /\ (exists itm, Examples.entries !! 1%nat = Some itm
        /\ TxResults.findObject (Some [Examples.package]) itm
           = Some Examples.package)
  /\ TxResults.enrich (Some [Examples.package]) Examples.entries
     = JS.Throw JS.TypeError
  /\ ~ (exists resp',
          TxResults.enrich (Some [Examples.package]) Examples.entries
          = JS.Ok resp'
          /\ length resp' = length Examples.entries)
  /\ TxResults.getTransactionsByAddress Examples.packaged (Some "0xa")
     = JS.Throw JS.TypeError
  /\ Specification.Failed s
  /\ TxResults.latestTx s = [].
Proof.
  cbv zeta.
  assert (Hthrow : TxResults.enrich (Some [Examples.package]) Examples.entries
                   = JS.Throw JS.TypeError) by (vm_compute; reflexivity).
  assert (Hcycle : TxResults.getTransactionsByAddress Examples.packaged (Some "0xa")
                   = JS.Throw JS.TypeError) by (vm_compute; reflexivity).
  split; [vm_compute; reflexivity|].
  split; [eexists; split; vm_compute; reflexivity|].
  split; [exact Hthrow|].
  split; [intros (resp' & Hok & _); rewrite Hthrow in Hok; discriminate|].
  split; [exact Hcycle|].
  unfold TxResults.cycle. rewrite Hcycle. simpl.
  split; [|reflexivity]. repeat split; discriminate.
Qed.

(* ===================================================================== *)
(** * The reducers of the slice *)
(* ===================================================================== *)

Section LedgerFacts.
Import JS TxResults Specification.

Lemma run_snoc (actions : list Action) (a : Action) :
  run (actions ++ [a]) = reducer (run actions) a.
Proof. unfold run. rewrite foldl_app. reflexivity. Qed.

End LedgerFacts.

(** C1, as the code has it.  After any sequence of [pending], [fulfilled]
    and [rejected] actions from the initial state, exactly one of these
    holds: the store is loading, with no entry and no recent address; or it
    is not loading, has no error, and lists the recent addresses of its
    entries; or it is not loading and has an error, with no entry and no
    recent address.  A [pending] action sets [loading] and clears the
    entries and the recent addresses; a [fulfilled] one commits its payload
    and clears the error; a [rejected] one records the error and clears the
    rest. *)
Theorem ledger_state_phases (actions : list TxResults.Action) :
  let s := TxResults.run actions in
  ((Specification.Loading s /\ ~ Specification.Loaded s
    /\ ~ Specification.Failed s)
   \/ (~ Specification.Loading s /\ Specification.Loaded s
       /\ ~ Specification.Failed s)
   \/ (~ Specification.Loading s /\ ~ Specification.Loaded s
       /\ Specification.Failed s))
  /\ (forall s0,
        let s1 := TxResults.reducer s0 TxResults.pending in
        TxResults.loading s1 = true
        /\ TxResults.latestTx s1 = [] /\ TxResults.recentAddresses s1 = [])
  /\ (forall s0 payload,
        TxResults.reducer s0 (TxResults.fulfilled payload)
        = {| TxResults.loading := false;
             TxResults.st_error := None;
             TxResults.latestTx := payload;
             TxResults.recentAddresses := TxResults.recentAddresses_of payload |})
  /\ (forall s0 e,
        TxResults.reducer s0 (TxResults.rejected e)
        = {| TxResults.loading := false;
             TxResults.st_error := Some e;
             TxResults.latestTx := [];
             TxResults.recentAddresses := [] |}).
Proof.
  cbv zeta. split; [|repeat split].
  unfold Specification.Loading, Specification.Loaded, Specification.Failed.
  induction actions as [|a actions IH] using rev_ind.
  - left. simpl. repeat split; try reflexivity; intros [H _]; discriminate.
  - rewrite run_snoc. clear IH.
    destruct a as [|payload|e]; simpl.
    + left. repeat split; try reflexivity; intros [H _]; discriminate.
    + right. left. repeat split; try reflexivity.
      * intros [H _]; discriminate.
      * intros (_ & H & _). apply H. reflexivity.
    + right. right. repeat split; try reflexivity; try discriminate.
      * intros [H _]; discriminate.
      * intros (_ & H & _). discriminate.
Qed.

(** C1, as stated, fails after a failure: the [pending] action of the next
    cycle keeps the error, so the store is loading with an error, two of
    the claimed phases at once.  And a cycle fulfilled with no entry leaves
    a store that is in none of them. *)
Lemma stale_error_while_loading :
  let s := TxResults.run [TxResults.rejected Examples.failure_error;
                          TxResults.pending] in
  TxResults.loading s = true
  /\ TxResults.st_error s = Some Examples.failure_error
  /\ ~ Specification.exactly_one_phase s
  /\ ~ Specification.exactly_one_phase
         (TxResults.run [TxResults.pending; TxResults.fulfilled []]).
Proof.
  cbv zeta. split; [reflexivity|]. split; [reflexivity|].
  unfold Specification.exactly_one_phase, Specification.phase_loading,
    Specification.phase_loaded, Specification.phase_failed. simpl.
  split.
  - intros [(_ & _ & H)|[(H & _)|(H & _)]]; apply H; try reflexivity.
    discriminate.
  - intros [(H & _)|[(_ & (H & _) & _)|(_ & _ & H)]];
      try discriminate; apply H; reflexivity.
Qed.


(* ===================================================================== *)
(** * Further properties of the code *)
(* ===================================================================== *)

Section StringFacts.
Import Coin.

Lemma append_cons (x : ascii) (a b : string) :
  String x a +:+ b = String x (a +:+ b).
Proof. reflexivity. Qed.

Lemma append_nil_l (b : string) : "" +:+ b = b.
Proof. reflexivity. Qed.

Lemma append_assoc (a b c : string) : (a +:+ b) +:+ c = a +:+ (b +:+ c).
Proof.
  induction a as [|x a IH]; [reflexivity|].
  rewrite !append_cons, IH. reflexivity.
Qed.

Lemma append_nil_r (a : string) : a +:+ "" = a.
Proof.
  induction a as [|x a IH]; [reflexivity|]. rewrite append_cons, IH. reflexivity.
Qed.

Lemma prefix_append (p s : string) : String.prefix p (p +:+ s) = true.
Proof.
  induction p as [|x p IH]; [destruct s; reflexivity|].
  rewrite append_cons. simpl.
  destruct (ascii_dec x x) as [_|Hne]; [exact IH|congruence].
Qed.

Lemma prefix_inv (p t : string) :
  String.prefix p t = true -> t = p +:+ substring_from (String.length p) t.
Proof.
  revert t. induction p as [|x p IH]; intros t.
  - reflexivity.
  - destruct t as [|y t]; [discriminate|]. simpl.
    destruct (ascii_dec x y) as [->|_]; [|discriminate].
    intros Hp. rewrite append_cons. f_equal. apply IH, Hp.
Qed.

Lemma substring_from_append (p s : string) :
  substring_from (String.length p) (p +:+ s) = s.
Proof.
  induction p as [|x p IH]; [destruct s; reflexivity|].
  rewrite append_cons. exact IH.
Qed.

Lemma unsnoc_append (s : string) (c : ascii) :
  unsnoc (s +:+ String c "") = Some (s, c).
Proof.
  induction s as [|x s IH]; [reflexivity|].
  rewrite append_cons. simpl. rewrite IH. reflexivity.
Qed.

Lemma unsnoc_Some (s front : string) (c : ascii) :
  unsnoc s = Some (front, c) -> s = front +:+ String c "".
Proof.
  revert front. induction s as [|x s IH]; intros front; simpl; [discriminate|].
  destruct (unsnoc s) as [[f z]|] eqn:Hs.
  - intros [= <- <-]. rewrite append_cons. f_equal. apply IH. reflexivity.
  - intros [= <- <-]. destruct s as [|y s]; [reflexivity|].
    simpl in Hs. destruct (unsnoc s) as [[? ?]|]; discriminate.
Qed.

(** A colon is no byte of a line separator: text that starts with a colon
    completes none. *)
Lemma startsLineSeparator_append_colon (a b : string) :
  startsLineSeparator (a +:+ String ":" b) = startsLineSeparator a.
Proof.
  destruct a as [|x [|y [|z a]]]; try reflexivity.
  - destruct b as [|c [|d b]]; reflexivity.
  - rewrite !append_cons, append_nil_l. unfold startsLineSeparator.
    destruct b as [|c b]; [reflexivity|]. unfold isLineSeparator.
    change (JS.byteOf ":" =? 128) with false.
    rewrite andb_false_r. reflexivity.
  - rewrite !append_cons, append_nil_l. unfold startsLineSeparator, isLineSeparator.
    change (JS.byteOf ":" =? 168) with false.
    change (JS.byteOf ":" =? 169) with false.
    rewrite andb_false_r. reflexivity.
Qed.

Lemma noLineTerminator_append_colon (a b : string) :
  noLineTerminator (a +:+ String ":" b)
  = noLineTerminator a && noLineTerminator (String ":" b).
Proof.
  induction a as [|x a IH]; [reflexivity|].
  rewrite append_cons. cbn [noLineTerminator].
  rewrite <- append_cons, startsLineSeparator_append_colon, IH.
  cbn [noLineTerminator]. rewrite !andb_assoc. reflexivity.
Qed.

End StringFacts.

Section CoinTypeFacts.

Lemma getCoinTypeArg_build (arg : string) :
  arg <> "" -> Coin.noLineTerminator arg = true ->
  Coin.getCoinTypeArg (Some ("0x2::coin::Coin<" +:+ arg +:+ ">")) = Some arg.
Proof.
  intros Hne Hnl. unfold Coin.getCoinTypeArg. cbv zeta.
  rewrite prefix_append.
  rewrite (substring_from_append "0x2::coin::Coin<" (arg +:+ ">")).
  rewrite unsnoc_append.
  destruct arg as [|a arg]; [congruence|]. rewrite Hnl. reflexivity.
Qed.

Lemma getCoinTypeArg_inv (t arg : string) :
  Coin.getCoinTypeArg (Some t) = Some arg ->
  t = "0x2::coin::Coin<" +:+ arg +:+ ">"
  /\ arg <> "" /\ Coin.noLineTerminator arg = true.
Proof.
  unfold Coin.getCoinTypeArg. cbv zeta.
  destruct (String.prefix "0x2::coin::Coin<" t) eqn:Hp; [|discriminate].
  apply prefix_inv in Hp.
  destruct (Coin.unsnoc _) as [[front c]|] eqn:Hu; [|discriminate].
  destruct front as [|a mid]; [discriminate|].
  destruct (ascii_dec c ">") as [->|Hc].
  - destruct (Coin.noLineTerminator (String a mid)) eqn:Hnl; [|discriminate].
    intros [= <-]. apply unsnoc_Some in Hu.
    split; [|split; [discriminate|exact Hnl]].
    rewrite Hp at 1. rewrite Hu. reflexivity.
  - intros H. exfalso. revert H.
    destruct c as [[] [] [] [] [] [] [] []]; try discriminate.
    congruence.
Qed.

End CoinTypeFacts.

(** X1. [Coin.getCoinTypeArg] inverts the syntax of a coin type: the type
    [0x2::coin::Coin<arg>] of a non-empty argument without line terminator
    (LF, CR, U+2028, U+2029) yields [arg]; whenever an argument is returned,
    the type is exactly [0x2::coin::Coin<arg>] for such an argument; without
    type there is no argument. *)
Theorem getCoinTypeArg_round_trip :
  (forall arg : string,
     arg <> "" -> Coin.noLineTerminator arg = true ->
     Coin.getCoinTypeArg (Some ("0x2::coin::Coin<" +:+ arg +:+ ">")) = Some arg)
  /\ (forall t arg : string,
        Coin.getCoinTypeArg (Some t) = Some arg ->
        t = "0x2::coin::Coin<" +:+ arg +:+ ">"
        /\ arg <> "" /\ Coin.noLineTerminator arg = true)
  /\ Coin.getCoinTypeArg None = None.
Proof.
  split; [exact getCoinTypeArg_build|]. split; [exact getCoinTypeArg_inv|reflexivity].
Qed.

(** An argument that holds a line feed, or a line separator (U+2028), is
    refused. *)
Example getCoinTypeArg_line_terminator :
  Coin.getCoinTypeArg
    (Some ("0x2::coin::Coin<a" +:+ String "010" "b>")) = None
  /\ Coin.getCoinTypeArg
       (Some ("0x2::coin::Coin<a"
              +:+ String "226" (String "128" (String "168" "b>")))) = None.
Proof. split; reflexivity. Qed.

Section SymbolFacts.
Import Coin.

Lemma lastIndexOf_from_absent (s : string) (i found : Z) :
  ~ In ":"%char (list_ascii_of_string s) ->
  lastIndexOf_from ":" s i found = found.
Proof.
  revert i found. induction s as [|x s IH]; intros i found Hno; simpl; [reflexivity|].
  simpl in Hno. destruct (Ascii.eqb_spec x ":") as [->|_]; [tauto|].
  apply IH. tauto.
Qed.

Lemma lastIndexOf_from_last (pre sym : string) (i found : Z) :
  ~ In ":"%char (list_ascii_of_string sym) ->
  lastIndexOf_from ":" (pre +:+ String ":" sym) i found
  = i + Z.of_nat (String.length pre).
Proof.
  intros Hno. revert i found. induction pre as [|x pre IH]; intros i found.
  - rewrite append_nil_l. simpl. rewrite lastIndexOf_from_absent by assumption. lia.
  - rewrite append_cons. simpl. rewrite IH. lia.
Qed.

Lemma getCoinSymbol_absent (sym : string) :
  ~ In ":"%char (list_ascii_of_string sym) -> getCoinSymbol sym = sym.
Proof.
  intros Hno. unfold getCoinSymbol, lastIndexOf.
  rewrite lastIndexOf_from_absent by assumption. destruct sym; reflexivity.
Qed.

Lemma getCoinSymbol_last (pre sym : string) :
  ~ In ":"%char (list_ascii_of_string sym) ->
  getCoinSymbol (pre +:+ ":" +:+ sym) = sym.
Proof.
  intros Hno. unfold getCoinSymbol, lastIndexOf.
  change (":" +:+ sym) with (String ":" sym).
  rewrite lastIndexOf_from_last by assumption.
  replace (Z.to_nat (0 + Z.of_nat (String.length pre) + 1))
    with (String.length (pre +:+ ":")).
  - change (String ":" sym) with (":" +:+ sym).
    rewrite <- append_assoc. apply substring_from_append.
  - clear. induction pre as [|x pre IH]; [reflexivity|].
    rewrite append_cons. simpl String.length. rewrite IH. lia.
Qed.

(** Every string splits at its last colon, if it has one. *)
Lemma last_colon_split (s : string) :
  ~ In ":"%char (list_ascii_of_string s)
  \/ exists pre sym, s = pre +:+ ":" +:+ sym
                     /\ ~ In ":"%char (list_ascii_of_string sym).
Proof.
  induction s as [|x s [IH|(pre & sym & -> & Hno)]].
  - left. simpl. tauto.
  - destruct (ascii_dec x ":") as [->|Hne].
    + right. exists "", s. split; [reflexivity|assumption].
    + left. simpl. intros [?|?]; [congruence|tauto].
  - right. exists (String x pre), sym. split; [reflexivity|assumption].
Qed.

End SymbolFacts.

(** X2. [Coin.getCoinSymbol] returns what follows the last colon: a string
    without colon is its own symbol; in [pre:sym] with a colon-free [sym] the
    symbol is [sym]; and for every string the symbol holds no colon, ends
    the string, and is its own symbol. *)
Theorem getCoinSymbol_last_segment :
  (forall sym : string,
     ~ In ":"%char (list_ascii_of_string sym) -> Coin.getCoinSymbol sym = sym)
  /\ (forall pre sym : string,
        ~ In ":"%char (list_ascii_of_string sym) ->
        Coin.getCoinSymbol (pre +:+ ":" +:+ sym) = sym)
  /\ (forall s : string,
        ~ In ":"%char (list_ascii_of_string (Coin.getCoinSymbol s))
        /\ (exists pre, s = pre +:+ Coin.getCoinSymbol s)
        /\ Coin.getCoinSymbol (Coin.getCoinSymbol s) = Coin.getCoinSymbol s).
Proof.
  split; [exact getCoinSymbol_absent|]. split; [exact getCoinSymbol_last|].
  intros s.
  assert (Hno : ~ In ":"%char (list_ascii_of_string (Coin.getCoinSymbol s))
                /\ exists pre, s = pre +:+ Coin.getCoinSymbol s).
  { destruct (last_colon_split s) as [Hs|(pre & sym & -> & Hs)].
    - rewrite getCoinSymbol_absent by assumption. split; [assumption|].
      exists "". reflexivity.
    - rewrite getCoinSymbol_last by assumption. split; [assumption|].
      exists (pre +:+ ":"). rewrite append_assoc. reflexivity. }
  destruct Hno as [Hno Hpre]. split; [exact Hno|]. split; [exact Hpre|].
  apply getCoinSymbol_absent, Hno.
Qed.

(** The symbol of [0x2::sui::SUI] and of [SUI]. *)
Lemma getCoinSymbol_last_segment_witness :
  Coin.getCoinSymbol "0x2::sui::SUI" = "SUI"
  /\ Coin.getCoinSymbol "SUI" = "SUI".
Proof.
  split.
  - apply (proj1 (proj2 getCoinSymbol_last_segment) "0x2::sui:" "SUI").
    simpl. intros [H|[H|[H|[]]]]; discriminate.
  - apply (proj1 getCoinSymbol_last_segment "SUI").
    simpl. intros [H|[H|[H|[]]]]; discriminate.
Defined.

(** X3. The three tests of the [Coin] class agree: an object with a coin
    type argument is a coin for [isCoin]; an object that [isSUI] accepts is
    a coin and has a type argument whose symbol is [SUI]; an object whose
    type is unknown is no coin, is not SUI and has no type argument. *)
Theorem coin_type_argument_isCoin (obj : CoinObjects.ObjectData) :
  (forall arg, CoinObjects.getCoinTypeArg obj = Some arg ->
               CoinObjects.isCoin obj = true)
  /\ (CoinObjects.isSUI obj = true ->
      CoinObjects.isCoin obj = true
      /\ exists arg, CoinObjects.getCoinTypeArg obj = Some arg
                     /\ Coin.getCoinSymbol arg = "SUI")
  /\ (CoinObjects.getType obj = None ->
      CoinObjects.isCoin obj = false /\ CoinObjects.isSUI obj = false
      /\ CoinObjects.getCoinTypeArg obj = None).
Proof.
  assert (Harg : forall arg, CoinObjects.getCoinTypeArg obj = Some arg ->
                             CoinObjects.isCoin obj = true).
  { intros arg. unfold CoinObjects.getCoinTypeArg, CoinObjects.isCoin.
    destruct (CoinObjects.getType obj) as [t|]; [|discriminate].
    intros H. apply getCoinTypeArg_inv in H as (-> & _ & _). reflexivity. }
  split; [exact Harg|]. split.
  - unfold CoinObjects.isSUI.
    destruct (CoinObjects.getCoinTypeArg obj) as [arg|] eqn:Ha; [|discriminate].
    destruct (TxResults.truthy_string arg); [|discriminate].
    intros Hs. apply bool_decide_eq_true in Hs.
    split; [apply (Harg arg); reflexivity|]. exists arg. split; [reflexivity|exact Hs].
  - unfold CoinObjects.isCoin, CoinObjects.isSUI, CoinObjects.getCoinTypeArg.
    intros ->. repeat split.
Qed.

(** The native coin object is SUI, hence a coin. *)
Lemma coin_type_argument_isCoin_witness :
  CoinObjects.isSUI (CoinObjects.SuiMoveObject "0x2::coin::Coin<0x2::sui::SUI>") = true
  /\ CoinObjects.isCoin (CoinObjects.SuiMoveObject "0x2::coin::Coin<0x2::sui::SUI>") = true.
Proof.
  assert (H : CoinObjects.isSUI
                (CoinObjects.SuiMoveObject "0x2::coin::Coin<0x2::sui::SUI>") = true)
    by (vm_compute; reflexivity).
  split; [exact H|].
  exact (proj1 (proj1 (proj2 (coin_type_argument_isCoin _)) H)).
Defined.

(** X4. [Coin.isSUI] reads the last segment of the type argument only: every
    coin type [0x2::coin::Coin<...:SUI>] without line terminator (LF, CR,
    U+2028, U+2029) is accepted, whatever package and module come before the
    last colon. *)
Theorem isSUI_any_package (prefix : string) :
  Coin.noLineTerminator prefix = true ->
  CoinObjects.isSUI
    (CoinObjects.SuiMoveObject ("0x2::coin::Coin<" +:+ prefix +:+ ":SUI>")) = true
  /\ CoinObjects.isSUI
       (CoinObjects.GetObjectDataResponse
          (Some ("0x2::coin::Coin<" +:+ prefix +:+ ":SUI>"))) = true.
Proof.
  intros Hnl.
  assert (Harg : Coin.getCoinTypeArg
                   (Some ("0x2::coin::Coin<" +:+ prefix +:+ ":SUI>"))
                 = Some (prefix +:+ ":SUI")).
  { replace (prefix +:+ ":SUI>") with ((prefix +:+ ":SUI") +:+ ">")
      by (rewrite append_assoc; reflexivity).
    apply getCoinTypeArg_build.
    - destruct prefix; discriminate.
    - rewrite (noLineTerminator_append_colon prefix "SUI"), Hnl. reflexivity. }
  assert (Hsym : Coin.getCoinSymbol (prefix +:+ ":SUI") = "SUI").
  { apply (getCoinSymbol_last prefix "SUI"). simpl.
    intros [H|[H|[H|[]]]]; discriminate. }
  unfold CoinObjects.isSUI, CoinObjects.getCoinTypeArg. simpl CoinObjects.getType.
  rewrite Harg, Hsym.
  assert (Ht : TxResults.truthy_string (prefix +:+ ":SUI") = true)
    by (destruct prefix; reflexivity).
  rewrite Ht. split; reflexivity.
Qed.

(** A coin of another package whose name is [SUI]. *)
Lemma isSUI_any_package_witness :
  CoinObjects.isSUI
    (CoinObjects.SuiMoveObject "0x2::coin::Coin<0xbad::fake::SUI>") = true.
Proof.
  exact (proj1 (isSUI_any_package "0xbad::fake:" eq_refl)).
Defined.

Section StructTagFacts.
Import CoinObjects.

Lemma split_from_step (x : ascii) (s cur : string) :
  x <> ":"%char ->
  split_from (String x s) cur = split_from s (cur +:+ String x "").
Proof.
  intros Hx. simpl. destruct s as [|b s]; [reflexivity|].
  destruct (Ascii.eqb_spec x ":") as [->|_]; [congruence|]. reflexivity.
Qed.

Lemma split_from_absent (a cur : string) :
  ~ In ":"%char (list_ascii_of_string a) ->
  split_from a cur = [cur +:+ a].
Proof.
  revert cur. induction a as [|x a IH]; intros cur Hno.
  - simpl. rewrite append_nil_r. reflexivity.
  - simpl in Hno. rewrite split_from_step by (intros ->; tauto).
    rewrite IH by tauto. rewrite append_assoc. reflexivity.
Qed.

Lemma split_from_segment (a rest cur : string) :
  ~ In ":"%char (list_ascii_of_string a) ->
  split_from (a +:+ "::" +:+ rest) cur = (cur +:+ a) :: split_from rest "".
Proof.
  revert cur. induction a as [|x a IH]; intros cur Hno.
  - rewrite append_nil_l, append_nil_r. reflexivity.
  - simpl in Hno. rewrite append_cons, split_from_step by (intros ->; tauto).
    rewrite IH by tauto. rewrite append_assoc. reflexivity.
Qed.

End StructTagFacts.

(** X5. [Coin.getCoinStructTag] on [a::m::n], three pieces without colon,
    returns the normalized [a], the module [m] and the name [n], the name
    being the symbol that [getCoinSymbol] gives; on a lone piece the module
    and the name are undefined. *)
Theorem getCoinStructTag_segments (normalizeSuiObjectId : string -> string)
    (a m n : string) :
  ~ In ":"%char (list_ascii_of_string a) ->
  ~ In ":"%char (list_ascii_of_string m) ->
  ~ In ":"%char (list_ascii_of_string n) ->
  CoinObjects.getCoinStructTag normalizeSuiObjectId (a +:+ "::" +:+ m +:+ "::" +:+ n)
  = {| CoinObjects.address := normalizeSuiObjectId a;
       CoinObjects.module := Some m;
       CoinObjects.name := Some n;
       CoinObjects.typeParams := [] |}
  /\ Coin.getCoinSymbol (a +:+ "::" +:+ m +:+ "::" +:+ n) = n
  /\ CoinObjects.getCoinStructTag normalizeSuiObjectId a
     = {| CoinObjects.address := normalizeSuiObjectId a;
          CoinObjects.module := None;
          CoinObjects.name := None;
          CoinObjects.typeParams := [] |}.
Proof.
  intros Ha Hm Hn. unfold CoinObjects.getCoinStructTag, CoinObjects.split_colons.
  rewrite split_from_segment by assumption.
  rewrite split_from_segment by assumption.
  rewrite !split_from_absent by assumption.
  rewrite !append_nil_l. split; [reflexivity|]. split; [|reflexivity].
  replace (a +:+ "::" +:+ m +:+ "::" +:+ n)
    with ((a +:+ "::" +:+ m +:+ ":") +:+ ":" +:+ n)
    by (rewrite !append_assoc; reflexivity).
  apply getCoinSymbol_last, Hn.
Qed.

(** The struct tag of [0x2::sui::SUI], without normalization. *)
Lemma getCoinStructTag_segments_witness :
  CoinObjects.getCoinStructTag (fun x => x) "0x2::sui::SUI"
  = {| CoinObjects.address := "0x2";
       CoinObjects.module := Some "sui";
       CoinObjects.name := Some "SUI";
       CoinObjects.typeParams := [] |}.
Proof.
  apply (getCoinStructTag_segments (fun x => x) "0x2" "sui" "SUI");
    simpl; intros H; repeat (destruct H as [H|H]; [discriminate|]); exact H.
Defined.

(** X6. A zero balance in loose mode: for a coin type that names no
    property of [Object.prototype] the value is 0, the maximum is 8 fraction
    digits, no notation is set and the placeholder is forced; for a coin
    type that names one the value is [NaN], the maximum is 3 fraction digits
    in compact notation and no placeholder is forced; accurate mode forces
    none. *)
Theorem getFormatData_zero_balance (coinArgType : string) :
  let r := Coin.getFormatData 0 coinArgType Coin.loose in
  ((coinArgType ∉ Coin.Object_prototype) ->
   Coin.value r = S754_zero false
   /\ Coin.maximumFractionDigits (Coin.formatOptions r) = Some 8
   /\ Coin.notation (Coin.formatOptions r) = None
   /\ Coin.forcedFormatValue r = Some "- -")
  /\ (coinArgType ∈ Coin.Object_prototype ->
      Coin.value r = JS.NaN
      /\ Coin.maximumFractionDigits (Coin.formatOptions r) = Some 3
      /\ Coin.notation (Coin.formatOptions r) = Some Coin.compact
      /\ Coin.forcedFormatValue r = None)
  /\ Coin.forcedFormatValue (Coin.getFormatData 0 coinArgType Coin.accurate) = None.
Proof.
  cbv zeta. unfold Coin.getFormatData.
  cbn [Coin.value Coin.formatOptions Coin.forcedFormatValue Coin.is_loose andb].
  assert (Hown : "0x2::sui::SUI" ∉ Coin.Object_prototype)
    by (apply (bool_decide_unpack _); vm_compute; exact I).
  destruct (denomination_of_cases coinArgType)
    as [[-> ->]|[[Hin ->]|(_ & Hno & ->)]].
  - split; [intros _; repeat split; vm_compute; reflexivity|].
    split; [intros Hin; contradiction|reflexivity].
  - split; [intros Hno; contradiction|].
    split; [intros _; repeat split; vm_compute; reflexivity|reflexivity].
  - split; [intros _; repeat split; vm_compute; reflexivity|].
    split; [intros Hin; contradiction|reflexivity].
Qed.

(** The native coin type, and the coin type [toString]. *)
Lemma getFormatData_zero_balance_witness :
  Coin.forcedFormatValue (Coin.getFormatData 0 "0x2::sui::SUI" Coin.loose)
  = Some "- -"
  /\ Coin.value (Coin.getFormatData 0 "toString" Coin.loose) = JS.NaN
  /\ Coin.forcedFormatValue (Coin.getFormatData 0 "toString" Coin.loose) = None.
Proof.
  split; [|split].
  - apply (proj1 (getFormatData_zero_balance "0x2::sui::SUI")).
    apply (bool_decide_unpack _). vm_compute. exact I.
  - apply (proj1 (proj2 (getFormatData_zero_balance "toString"))).
    apply (bool_decide_unpack _). vm_compute. exact I.
  - apply (proj1 (proj2 (getFormatData_zero_balance "toString"))).
    apply (bool_decide_unpack _). vm_compute. exact I.
Defined.

(** X7. [Coin.fromInput] returns an integer only when the product of the
    parsed input and the denomination is finite: a product that is [NaN] or
    infinite throws the exception named [RangeError], and so does every
    input that starts with the literal [Infinity], at every denomination. *)
Theorem fromInput_not_finite (inputValue : string) (denomination : JS.Number) :
  (JS.isFinite (JS.mul (JS.parseFloat inputValue) denomination) = false ->
   Coin.fromInput inputValue denomination = JS.Throw JS.RangeError)
  /\ (forall neg, JS.scanDecimalLiteral inputValue = Some (JS.Infinity_literal neg) ->
      Coin.fromInput inputValue denomination = JS.Throw JS.RangeError)
  /\ (forall z, Coin.fromInput inputValue denomination = JS.Ok z ->
      JS.isFinite (JS.mul (JS.parseFloat inputValue) denomination) = true)
  /\ JS.err_name JS.RangeError = Some "RangeError".
Proof.
  assert (H : JS.isFinite (JS.mul (JS.parseFloat inputValue) denomination) = false ->
              Coin.fromInput inputValue denomination = JS.Throw JS.RangeError).
  { unfold Coin.fromInput.
    destruct (JS.mul (JS.parseFloat inputValue) denomination); try discriminate;
      reflexivity. }
  split; [exact H|]. split; [|split; [|reflexivity]].
  - intros neg Hscan. apply H. unfold JS.parseFloat. rewrite Hscan.
    destruct denomination as [[]|[]| |[] ? ?], neg; reflexivity.
  - intros z Hz.
    destruct (JS.isFinite (JS.mul (JS.parseFloat inputValue) denomination)) eqn:Hf;
      [reflexivity|].
    rewrite (H eq_refl) in Hz. discriminate.
Qed.

(** Three inputs whose product is infinite. *)
Lemma fromInput_not_finite_witness :
  Coin.fromInput "Infinity" Coin.lit_1e9 = JS.Throw JS.RangeError
  /\ Coin.fromInput "-Infinity SUI" Coin.lit_1 = JS.Throw JS.RangeError
  /\ Coin.fromInput "1e400" Coin.lit_1 = JS.Throw JS.RangeError.
Proof.
  split; [|split].
  - exact (proj1 (proj2 (fromInput_not_finite "Infinity" Coin.lit_1e9)) false eq_refl).
  - exact (proj1 (proj2 (fromInput_not_finite "-Infinity SUI" Coin.lit_1)) true eq_refl).
  - apply (proj1 (fromInput_not_finite "1e400" Coin.lit_1)). vm_compute. reflexivity.
Defined.

Section ParseFacts.
Import JS.

Lemma trimStart_cons (a : ascii) (s1 : string) :
  trimStart (String a s1)
  = if isWhiteSpace a then trimStart s1
    else if negb (startsWhiteSpace a) then String a s1
    else
      match s1 with
      | EmptyString => String a s1
      | String b s2 =>
          if isWhiteSpace2 a b then trimStart s2
          else
            match s2 with
            | EmptyString => String a s1
            | String c s3 =>
                if isWhiteSpace3 a b c then trimStart s3 else String a s1
            end
      end.
Proof. reflexivity. Qed.

(** White space is skipped one character at a time, of one, two or three
    bytes. *)
Lemma trimStart_append_bounded (n : nat) (ws s : string) :
  (String.length ws <= n)%nat ->
  trimStart ws = "" -> trimStart (ws +:+ s) = trimStart s.
Proof.
  revert ws. induction n as [|n IH]; intros ws Hn.
  - destruct ws; [reflexivity|simpl in Hn; lia].
  - destruct ws as [|a ws1]; [reflexivity|]. simpl in Hn.
    rewrite append_cons, !trimStart_cons.
    destruct (isWhiteSpace a); [apply IH; lia|].
    destruct (negb (startsWhiteSpace a)); [discriminate|].
    destruct ws1 as [|b ws2]; [discriminate|]. simpl in Hn.
    rewrite append_cons.
    destruct (isWhiteSpace2 a b); [apply IH; lia|].
    destruct ws2 as [|c ws3]; [discriminate|]. simpl in Hn.
    rewrite append_cons.
    destruct (isWhiteSpace3 a b c); [apply IH; lia|discriminate].
Qed.

Lemma trimStart_append (ws s : string) :
  trimStart ws = "" -> trimStart (ws +:+ s) = trimStart s.
Proof. apply (trimStart_append_bounded (String.length ws)). reflexivity. Qed.

End ParseFacts.

(** X8. White space in front of the input changes nothing: for every
    prefix made of white space and line terminators only, of the ASCII range
    or beyond it, [parseFloat] and [Coin.fromInput] give the same result
    with and without it. *)
Theorem fromInput_leading_white_space (ws inputValue : string)
    (denomination : JS.Number) :
  JS.trimStart ws = "" ->
  JS.parseFloat (ws +:+ inputValue) = JS.parseFloat inputValue
  /\ Coin.fromInput (ws +:+ inputValue) denomination
     = Coin.fromInput inputValue denomination.
Proof.
  intros Hws.
  assert (H : JS.parseFloat (ws +:+ inputValue) = JS.parseFloat inputValue).
  { unfold JS.parseFloat, JS.scanDecimalLiteral.
    rewrite trimStart_append by assumption. reflexivity. }
  split; [exact H|]. unfold Coin.fromInput. rewrite H. reflexivity.
Qed.

(** A space, a no-break space (U+00A0), a line separator (U+2028) and a
    byte order mark (U+FEFF) in front of [1.5]. *)
Lemma fromInput_leading_white_space_witness :
  JS.trimStart Examples.white_space = ""
  /\ Coin.fromInput (Examples.white_space +:+ "1.5") Coin.lit_1e9
     = Coin.fromInput "1.5" Coin.lit_1e9
  /\ Coin.fromInput "1.5" Coin.lit_1e9 = JS.Ok 1500000000.
Proof.
  split; [reflexivity|]. split; [|vm_compute; reflexivity].
  exact (proj2 (fromInput_leading_white_space Examples.white_space "1.5"
                  Coin.lit_1e9 eq_refl)).
Defined.

Section NumeralFacts.
Import JS.

(** After a digit the scanner is past the white space, the sign and the
    [Infinity] test. *)
Lemma scanDecimalLiteral_digit (c : ascii) (s : string) :
  digitValue c <> None ->
  scanDecimalLiteral (String c s)
  = let '(ip, ni, s1) := takeDigits (String c s) 0 0 in
    let '(fp, nf, s2) :=
      match s1 with
      | String "." r => takeDigits r ip 0
      | _ => (ip, 0, s1)
      end in
    if ni + nf =? 0 then None
    else Some (Decimal_literal false fp (takeExponent s2 - nf)).
Proof.
  intros Hc.
  destruct c as [[] [] [] [] [] [] [] []];
    try (exfalso; apply Hc; reflexivity); reflexivity.
Qed.

Lemma takeDigits_numeral (ds rest : string) (acc count : Z) :
  (forall c, In c (list_ascii_of_string ds) -> digitValue c <> None) ->
  match rest with
  | String c _ => digitValue c = None
  | EmptyString => True
  end ->
  takeDigits (ds +:+ rest) acc count
  = ((takeDigits ds acc count).1.1,
     count + Z.of_nat (String.length ds), rest).
Proof.
  intros Hds Hrest. revert acc count.
  induction ds as [|c ds IH]; intros acc count.
  - rewrite append_nil_l. simpl String.length.
    replace (count + Z.of_nat 0) with count by lia.
    destruct rest as [|c r]; [reflexivity|]. simpl. rewrite Hrest. reflexivity.
  - rewrite append_cons. simpl takeDigits.
    destruct (digitValue c) as [d|] eqn:Hd.
    + rewrite IH by (intros x Hx; apply Hds; right; exact Hx).
      replace (count + 1 + Z.of_nat (String.length ds))
        with (count + Z.of_nat (String.length (String c ds)))
        by (simpl String.length; lia).
      reflexivity.
    + exfalso. apply (Hds c); [left; reflexivity|exact Hd].
Qed.

End NumeralFacts.

(** X9. Text after a numeral is ignored: when a non-empty run of digits is
    followed by text that does not start with a digit, a dot or an exponent
    mark, the literal read is the numeral, and [parseFloat] and
    [Coin.fromInput] give what they give for the digits alone. *)
Theorem fromInput_numeral_with_suffix (c : ascii) (ds rest : string)
    (denomination : JS.Number) :
  (forall x, In x (list_ascii_of_string (String c ds)) -> JS.digitValue x <> None) ->
  match rest with
  | String x _ =>
      JS.digitValue x = None /\ x <> "."%char /\ x <> "e"%char /\ x <> "E"%char
  | EmptyString => True
  end ->
  JS.scanDecimalLiteral (String c ds +:+ rest)
  = Some (JS.Decimal_literal false (JS.takeDigits (String c ds) 0 0).1.1 0)
  /\ JS.parseFloat (String c ds +:+ rest) = JS.parseFloat (String c ds)
  /\ Coin.fromInput (String c ds +:+ rest) denomination
     = Coin.fromInput (String c ds) denomination.
Proof.
  intros Hds Hrest.
  assert (Hscan : forall rest',
            match rest' with
            | String x _ =>
                JS.digitValue x = None /\ x <> "."%char /\ x <> "e"%char
                /\ x <> "E"%char
            | EmptyString => True
            end ->
            JS.scanDecimalLiteral (String c ds +:+ rest')
            = Some (JS.Decimal_literal false
                      (JS.takeDigits (String c ds) 0 0).1.1 0)).
  { intros rest' Hr. rewrite append_cons.
    rewrite scanDecimalLiteral_digit by (apply Hds; left; reflexivity).
    rewrite <- append_cons.
    rewrite (takeDigits_numeral (String c ds) rest' 0 0 Hds)
      by (destruct rest'; tauto).
    assert (Hcount : (0 + Z.of_nat (String.length (String c ds)) + 0 =? 0) = false)
      by (apply Z.eqb_neq; simpl String.length; lia).
    destruct rest' as [|x r].
    - rewrite Hcount. reflexivity.
    - destruct Hr as (_ & Hdot & He & HE).
      assert (Hnodot : match String x r with
                       | String "." r0 =>
                           JS.takeDigits r0 (JS.takeDigits (String c ds) 0 0).1.1 0
                       | _ => ((JS.takeDigits (String c ds) 0 0).1.1, 0, String x r)
                       end
                       = ((JS.takeDigits (String c ds) 0 0).1.1, 0, String x r)).
      { destruct x as [[] [] [] [] [] [] [] []]; try reflexivity. congruence. }
      rewrite Hnodot, Hcount. unfold JS.takeExponent.
      destruct (Ascii.eqb_spec x "e") as [->|_]; [congruence|].
      destruct (Ascii.eqb_spec x "E") as [->|_]; [congruence|]. reflexivity. }
  assert (Hparse : JS.parseFloat (String c ds +:+ rest) = JS.parseFloat (String c ds)).
  { unfold JS.parseFloat. rewrite (Hscan rest Hrest).
    rewrite <- (append_nil_r (String c ds)) at 2. rewrite (Hscan "" I). reflexivity. }
  split; [exact (Hscan rest Hrest)|]. split; [exact Hparse|].
  unfold Coin.fromInput. rewrite Hparse. reflexivity.
Qed.

(** The input [12 SUI] at the denomination [1e9]. *)
Lemma fromInput_numeral_with_suffix_witness :
  Coin.fromInput "12 SUI" Coin.lit_1e9 = Coin.fromInput "12" Coin.lit_1e9
  /\ Coin.fromInput "12" Coin.lit_1e9 = JS.Ok 12000000000.
Proof.
  split; [|vm_compute; reflexivity].
  refine (proj2 (proj2 (fromInput_numeral_with_suffix "1" "2" " SUI" Coin.lit_1e9 _ _))).
  - simpl. intros x [<-|[<-|[]]]; discriminate.
  - repeat split; discriminate.
Defined.

(** X10. [Delegation]: a delegation is active exactly when its active amount
    is positive and its ending epoch is missing or 0; rewards are never
    unclaimed before the next unclaimed epoch; for an active delegation they
    are unclaimed from that epoch on; for an inactive one, at an epoch that
    is not negative, exactly from that epoch up to the ending epoch
    excluded. *)
Theorem hasUnclaimedRewards_window (d : Delegation.DelegationSuiObject) (epoch : Z) :
  (Delegation.isActive d = true
   <-> 0 < Delegation.activeDelegation d
       /\ (Delegation.endingEpoch d = None \/ Delegation.endingEpoch d = Some 0))
  /\ (Delegation.hasUnclaimedRewards d epoch = true ->
      Delegation.nextRewardUnclaimedEpoch d <= epoch)
  /\ (Delegation.isActive d = true ->
      (Delegation.hasUnclaimedRewards d epoch = true
       <-> Delegation.nextRewardUnclaimedEpoch d <= epoch))
  /\ (Delegation.isActive d = false ->
      0 <= epoch ->
      (Delegation.hasUnclaimedRewards d epoch = true
       <-> exists ending,
             Delegation.endingEpoch d = Some ending
             /\ Delegation.nextRewardUnclaimedEpoch d <= epoch < ending)).
Proof.
  assert (Hact : Delegation.isActive d = true
                 <-> 0 < Delegation.activeDelegation d
                     /\ (Delegation.endingEpoch d = None
                         \/ Delegation.endingEpoch d = Some 0)).
  { unfold Delegation.isActive, Delegation.truthy_number.
    rewrite andb_true_iff, Z.ltb_lt, negb_true_iff.
    destruct (Delegation.endingEpoch d) as [ending|].
    - rewrite negb_false_iff, Z.eqb_eq.
      split; [intros [? ->]; auto|].
      intros [? [H|[= ->]]]; [discriminate|auto].
    - intuition. }
  split; [exact Hact|].
  unfold Delegation.hasUnclaimedRewards.
  split; [rewrite andb_true_iff, Z.leb_le; tauto|].
  split; intros Ha; rewrite Ha; simpl orb.
  - rewrite andb_true_r, Z.leb_le. tauto.
  - intros Hepoch. rewrite andb_true_iff, Z.leb_le, Z.ltb_lt.
    unfold Delegation.or_zero.
    destruct (Delegation.endingEpoch d) as [ending|].
    + split; [intros [? ?]; exists ending; auto|].
      intros (e & [= <-] & ? & ?). lia.
    + split; [lia|]. intros (e & H & _). discriminate.
Qed.

(** A delegation of 100 with ending epoch 0: active, with rewards at epoch 5, not at epoch 2. *)
Lemma hasUnclaimedRewards_window_witness :
  let d := {| Delegation.active_delegation := Some 100;
              Delegation.delegate_amount := 100;
              Delegation.next_reward_unclaimed_epoch := 3;
              Delegation.validator_address := "0xv";
              Delegation.ending_epoch := Some 0 |} in
  Delegation.isActive d = true
  /\ Delegation.hasUnclaimedRewards d 5 = true
  /\ Delegation.hasUnclaimedRewards d 2 = false.
Proof.
  cbv zeta.
  pose proof (hasUnclaimedRewards_window
                {| Delegation.active_delegation := Some 100;
                   Delegation.delegate_amount := 100;
                   Delegation.next_reward_unclaimed_epoch := 3;
                   Delegation.validator_address := "0xv";
                   Delegation.ending_epoch := Some 0 |} 5)
    as (Hact & _ & Hwin & _).
  assert (Ha : Delegation.isActive
                 {| Delegation.active_delegation := Some 100;
                    Delegation.delegate_amount := 100;
                    Delegation.next_reward_unclaimed_epoch := 3;
                    Delegation.validator_address := "0xv";
                    Delegation.ending_epoch := Some 0 |} = true).
  { apply Hact. split; [reflexivity|right; reflexivity]. }
  split; [exact Ha|]. split; [|reflexivity].
  apply (Hwin Ha). discriminate.
Defined.

Section SetFacts.
Import TxResults Specification.

Lemma foldl_Set_add (xs acc : list string) :
  foldl Set_add acc xs = acc ++ first_occurrences acc xs.
Proof.
  revert acc. induction xs as [|x xs IH]; intros acc; simpl.
  - rewrite app_nil_r. reflexivity.
  - rewrite IH. unfold Set_add. case_bool_decide as Hx; [reflexivity|].
    rewrite <- app_assoc. simpl. do 2 f_equal.
    apply first_occurrences_ext. intros y.
    rewrite elem_of_app, !elem_of_cons, elem_of_nil. tauto.
Qed.

Lemma Set_elements_first_occurrences (xs : list string) :
  Set_elements xs = first_occurrences [] xs.
Proof. unfold Set_elements. rewrite foldl_Set_add. reflexivity. Qed.

Lemma NoDup_Set_elements (xs : list string) : NoDup (Set_elements xs).
Proof. rewrite Set_elements_first_occurrences. apply NoDup_first_occurrences. Qed.

Lemma elem_of_Set_elements (xs : list string) (x : string) :
  x ∈ Set_elements xs <-> x ∈ xs.
Proof.
  rewrite Set_elements_first_occurrences, elem_of_first_occurrences, elem_of_nil.
  tauto.
Qed.

Lemma length_omap_le {A B} (f : A -> option B) (l : list A) :
  (length (omap f l) <= length l)%nat.
Proof.
  induction l as [|x l IH]; [reflexivity|].
  change (omap f (x :: l))
    with (match f x with Some y => y :: omap f l | None => omap f l end).
  destruct (f x); simpl length; lia.
Qed.

End SetFacts.

(** X11. After a [fulfilled] action the recent addresses hold no address
    twice and no empty string, and they are exactly the non-empty
    recipients and senders of the entries of the payload. *)
Theorem recentAddresses_of_fulfilled (state : TxResults.TransactionManualState)
    (payload : list TxResults.TxResultState) :
  let recent :=
    TxResults.recentAddresses
      (TxResults.reducer state (TxResults.fulfilled payload)) in
  NoDup recent
  /\ (forall a, a ∈ recent ->  a <> "")
  /\ (forall a, a ∈ recent
                <-> a <> ""
                    /\ exists tx, tx ∈ payload
                                  /\ (TxResults.to tx = Some a
                                      \/ TxResults.from tx = a)).
Proof.
  cbv zeta. simpl. unfold TxResults.recentAddresses_of.
  split; [apply NoDup_Set_elements|].
  assert (H : forall a,
            a ∈ TxResults.Set_elements
                  (filter (fun itm => TxResults.truthy_string itm = true)
                     (omap id (payload ≫= fun tx =>
                                 [TxResults.to tx; Some (TxResults.from tx)])))
            <-> a <> ""
                /\ exists tx, tx ∈ payload
                              /\ (TxResults.to tx = Some a
                                  \/ TxResults.from tx = a)).
  { intros a. rewrite elem_of_Set_elements, list_elem_of_filter, list_elem_of_omap.
    assert (Ht : TxResults.truthy_string a = true <-> a <> "")
      by (destruct a; simpl; split; congruence).
    rewrite Ht. apply and_iff_compat_l. split.
    - intros (o & Ho & Hid). simpl in Hid. subst o.
      apply list_elem_of_bind in Ho as (tx & Hin & Htx).
      exists tx. split; [exact Htx|].
      apply elem_of_cons in Hin as [Hto|Hin]; [left; congruence|].
      apply list_elem_of_singleton in Hin. right. congruence.
    - intros (tx & Htx & Hor). exists (Some a). split; [|reflexivity].
      apply list_elem_of_bind. exists tx. split; [|exact Htx].
      destruct Hor as [->| <-]; [left|right; left]. }
  split; [intros a Ha; apply H in Ha; tauto|exact H].
Qed.

(** X12. The object ids sent to the batch fetch hold no id twice, are exactly
    the object ids of the reconciled entries, and are never more than the
    entries. *)
Theorem objectIDs_of_distinct (resp : list TxResults.TxResultState) :
  NoDup (TxResults.objectIDs_of resp)
  /\ (forall id, id ∈ TxResults.objectIDs_of resp
                 <-> exists itm, itm ∈ resp /\ TxResults.objectId itm = Some id)
  /\ (length (TxResults.objectIDs_of resp) <= length resp)%nat.
Proof.
  unfold TxResults.objectIDs_of.
  split; [apply NoDup_Set_elements|]. split.
  - intros id. rewrite elem_of_Set_elements, list_elem_of_omap.
    split; intros (itm & ? & ?); exists itm; tauto.
  - rewrite Set_elements_first_occurrences.
    etransitivity; [apply length_first_occurrences|]. apply length_omap_le.
Qed.

Section ThunkEdgeFacts.
Import JS TxResults.

Lemma truthy_string_iff (s : string) : truthy_string s = true <-> s <> "".
Proof. destruct s; simpl; split; congruence. Qed.

Lemma omap_id_nil {A} (raw : list (option A)) :
  (forall r, r ∈ raw -> r = None) -> omap id raw = [].
Proof.
  induction raw as [|r raw IH]; intros Hall; [reflexivity|].
  rewrite (Hall r) by left. apply IH. intros r' Hr'. apply Hall. right. exact Hr'.
Qed.

Lemma mapM_Throw {A B} (f : A -> Result B) (xs : list A) (x : A) (e : SerializedError) :
  x ∈ xs -> f x = Throw e ->
  exists x' e', x' ∈ xs /\ f x' = Throw e' /\ mapM f xs = Throw e'.
Proof.
  induction xs as [|y xs IH]; intros Hx Hf; [apply elem_of_nil in Hx as []|].
  simpl. destruct (f y) as [b|e0] eqn:Hy.
  - apply elem_of_cons in Hx as [->|Hx]; [congruence|].
    destruct (IH Hx Hf) as (x' & e' & Hx' & Hfx' & ->).
    exists x', e'. split; [right; exact Hx'|]. split; [exact Hfx'|reflexivity].
  - exists y, e0. split; [left|]. split; [exact Hy|reflexivity].
Qed.

Lemma toTxResult_Throw (address : string) (transactions : list (Z * string))
    (txEff : TransactionEffectsResponse) (e : SerializedError) :
  toTxResult address transactions txEff = Throw e ->
  err_name e = Some "TypeError".
Proof.
  unfold toTxResult.
  destruct (filter _ transactions) as [|[seq0 digest] rest]; [intros [= <-]; reflexivity|].
  destruct (1 <? _); [discriminate|].
  destruct (getTransactions (certificate txEff)); [intros [= <-]; reflexivity|discriminate].
Qed.

Lemma toTxResult_orphan (address : string) (transactions : list (Z * string))
    (txEff : TransactionEffectsResponse) :
  getTransactionDigest (certificate txEff) ∉ map snd transactions ->
  toTxResult address transactions txEff = Throw TypeError.
Proof.
  intros Hno. unfold toTxResult.
  destruct (filter _ transactions) as [|[seq0 digest] rest] eqn:Hf; [reflexivity|].
  exfalso. apply Hno.
  assert (Hin : (seq0, digest) ∈ filter
            (fun transactionId : Z * string =>
               transactionId.2 = getTransactionDigest (certificate txEff))
            transactions) by (rewrite Hf; left).
  apply list_elem_of_filter in Hin as [Hd Hin]. simpl in Hd. subst digest.
  apply (list_elem_of_fmap_2 snd _ _ Hin).
Qed.

End ThunkEdgeFacts.

(** X13. Without address (none, or the empty string), or when the node lists
    only empty references, the thunk returns the empty list and the cycle
    ends with an empty store that is neither loading nor failed, whatever
    the store held before. *)
Theorem cycle_without_references (api : TxResults.Api) (address : option string)
    (state : TxResults.TransactionManualState) :
  address = None
  \/ address = Some ""
  \/ (exists a raw, address = Some a
        /\ TxResults.getTransactionsForAddress api a = JS.Ok raw
        /\ forall r, r ∈ raw -> r = None) ->
  TxResults.getTransactionsByAddress api address = JS.Ok []
  /\ TxResults.cycle api address state
     = {| TxResults.loading := false; TxResults.st_error := None;
          TxResults.latestTx := []; TxResults.recentAddresses := [] |}.
Proof.
  intros H.
  assert (Hok : TxResults.getTransactionsByAddress api address = JS.Ok []).
  { destruct H as [->|[->|(a & raw & -> & Hraw & Hall)]]; try reflexivity.
    unfold TxResults.getTransactionsByAddress.
    destruct (TxResults.truthy_string a); [|reflexivity]. simpl.
    rewrite Hraw. simpl. rewrite (omap_id_nil raw Hall). reflexivity. }
  split; [exact Hok|]. unfold TxResults.cycle. rewrite Hok. reflexivity.
Qed.

(** The empty address after a failed cycle. *)
Lemma cycle_without_references_witness :
  TxResults.cycle Examples.node (Some "") (TxResults.run [TxResults.rejected Examples.failure_error])
  = {| TxResults.loading := false; TxResults.st_error := None;
       TxResults.latestTx := []; TxResults.recentAddresses := [] |}.
Proof.
  apply cycle_without_references. right. left. reflexivity.
Defined.

(** X14. A failure of the node is the failure of the cycle: when the fetch of
    the references throws, or when references exist and the batch fetch of
    the effects throws, the thunk throws the same error and the store ends
    not loading, with that error and no entry. *)
Theorem cycle_network_failure (api : TxResults.Api) (a : string)
    (state : TxResults.TransactionManualState) (e : JS.SerializedError) :
  a <> "" ->
  TxResults.getTransactionsForAddress api a = JS.Throw e
  \/ (exists raw r,
        TxResults.getTransactionsForAddress api a = JS.Ok raw
        /\ Some r ∈ raw
        /\ TxResults.getTransactionWithEffectsBatch api
             (TxResults.deduplicate (Some (omap id raw))) = JS.Throw e) ->
  TxResults.getTransactionsByAddress api (Some a) = JS.Throw e
  /\ TxResults.cycle api (Some a) state
     = {| TxResults.loading := false; TxResults.st_error := Some e;
          TxResults.latestTx := []; TxResults.recentAddresses := [] |}.
Proof.
  intros Ha H. apply truthy_string_iff in Ha.
  assert (Hthrow : TxResults.getTransactionsByAddress api (Some a) = JS.Throw e).
  { unfold TxResults.getTransactionsByAddress. rewrite Ha. cbn [negb].
    destruct H as [->|(raw & r & -> & Hr & Hfetch)]; [reflexivity|].
    cbn [JS.bind]. revert Hfetch.
    destruct (omap id raw) as [|t ts] eqn:Ho; intros Hfetch.
    - exfalso. assert (Hin : r ∈ omap id raw)
        by (apply list_elem_of_omap; exists (Some r); split; [exact Hr|reflexivity]).
      rewrite Ho in Hin. apply elem_of_nil in Hin as [].
    - rewrite Hfetch. reflexivity. }
  split; [exact Hthrow|]. unfold TxResults.cycle. rewrite Hthrow. reflexivity.
Qed.

(** X15. An effect whose digest is in no reference fails the whole cycle: the
    thunk throws a [TypeError] and the store ends not loading, with that
    error and no entry. *)
Theorem cycle_orphaned_effect (api : TxResults.Api) (a : string)
    (state : TxResults.TransactionManualState)
    (raw : list (option (Z * string)))
    (txEffs : list TxResults.TransactionEffectsResponse)
    (txEff : TxResults.TransactionEffectsResponse) :
  a <> "" ->
  TxResults.getTransactionsForAddress api a = JS.Ok raw ->
  TxResults.getTransactionWithEffectsBatch api
    (TxResults.deduplicate (Some (omap id raw))) = JS.Ok txEffs ->
  omap id raw <> [] ->
  txEff ∈ txEffs ->
  TxResults.getTransactionDigest (TxResults.certificate txEff)
    ∉ map snd (omap id raw) ->
  exists err,
    JS.err_name err = Some "TypeError"
    /\ TxResults.getTransactionsByAddress api (Some a) = JS.Throw err
    /\ TxResults.cycle api (Some a) state
       = {| TxResults.loading := false; TxResults.st_error := Some err;
            TxResults.latestTx := []; TxResults.recentAddresses := [] |}.
Proof.
  intros Ha Hraw Hfetch Hne Hin Horphan. apply truthy_string_iff in Ha.
  destruct (mapM_Throw (TxResults.toTxResult a (omap id raw)) txEffs txEff _ Hin
              (toTxResult_orphan a (omap id raw) txEff Horphan))
    as (x' & err & _ & Hx' & Hmap).
  exists err. split; [eapply toTxResult_Throw; exact Hx'|].
  assert (Hthrow : TxResults.getTransactionsByAddress api (Some a) = JS.Throw err).
  { unfold TxResults.getTransactionsByAddress. rewrite Ha. cbn [negb].
    rewrite Hraw. cbn [JS.bind]. revert Hfetch Hmap.
    destruct (omap id raw) as [|t ts] eqn:Ho; [congruence|]. intros Hfetch Hmap.
    rewrite Hfetch. cbn [JS.bind]. unfold TxResults.reconcile. rewrite Hmap.
    reflexivity. }
  split; [exact Hthrow|]. unfold TxResults.cycle. rewrite Hthrow. reflexivity.
Qed.

Section EntryFacts.
Import JS TxResults Specification.

Lemma toTxResult_fields (address : string) (transactions : list (Z * string))
    (txEff : TransactionEffectsResponse) (entry : TxResultState) :
  toTxResult address transactions txEff = Ok (Some entry) ->
  isSender entry = Some (bool_decide (from entry = address))
  /\ from entry = data_sender (certificate txEff)
  /\ to entry <> Some ""
  /\ amount entry <> Some 0
  /\ txGas entry = getTotalGasUsed txEff
  /\ status entry = getExecutionStatusType txEff
  /\ error entry = getExecutionStatusError txEff.
Proof.
  unfold toTxResult.
  destruct (filter _ transactions) as [|[seq0 digest] rest]; [discriminate|].
  destruct (1 <? _); [discriminate|].
  destruct (getTransactions (certificate txEff)) as [|txn txns]; [discriminate|].
  intros [= <-]. simpl. repeat split.
  - destruct (getTransferSuiTransaction txn) as [t|]; simpl.
    + destruct (ts_recipient t); simpl; congruence.
    + destruct (getTransferObjectTransaction txn) as [t|]; simpl; [|congruence].
      destruct (to_recipient t); simpl; congruence.
  - destruct (getTransferSuiTransaction txn ≫= ts_amount) as [v|]; [|congruence].
    destruct (Z.eqb_spec v 0); congruence.
Qed.

Lemma toTxResult_None (address : string) (transactions : list (Z * string))
    (txEff : TransactionEffectsResponse) :
  toTxResult address transactions txEff = Ok None -> multiOperation txEff.
Proof.
  unfold toTxResult, multiOperation.
  destruct (filter _ transactions) as [|[seq0 digest] rest]; [discriminate|].
  destruct (Z.ltb_spec 1 (Z.of_nat (length (getTransactions (certificate txEff)))))
    as [Hlt|_]; [intros _; lia|].
  destruct (getTransactions (certificate txEff)); discriminate.
Qed.

(** The surviving entries, before the sort, carry the digests of the
    single-operation effects, in the order of the effects. *)
Lemma mapM_toTxResult_digests (address : string) (transactions : list (Z * string))
    (txEffs : list TransactionEffectsResponse) (ys : list (option TxResultState)) :
  mapM (toTxResult address transactions) txEffs = Ok ys ->
  map txId (omap id ys)
  = map (fun txEff => getTransactionDigest (certificate txEff))
      (filter (fun txEff => ~ multiOperation txEff) txEffs).
Proof.
  intros Hm. apply mapM_Ok in Hm.
  induction Hm as [|txEff y txEffs ys Hy _ IH]; [reflexivity|].
  destruct y as [entry|].
  - apply toTxResult_Some in Hy as (Hid & _ & Hs).
    rewrite filter_cons_True by exact Hs.
    change (omap id (Some entry :: ys)) with (entry :: omap id ys).
    simpl map. rewrite Hid, IH. reflexivity.
  - apply toTxResult_None in Hy.
    rewrite filter_cons_False by tauto. exact IH.
Qed.

End EntryFacts.

(** X16. A successful reconciliation returns one entry for each
    single-operation effect of the answer: the digests of the entries are,
    up to the order, the digests of these effects, so there are as many
    entries as such effects and never more than effects. *)
Theorem reconcile_one_entry_per_effect (address : string)
    (transactions : list (Z * string))
    (txEffs : list TxResults.TransactionEffectsResponse)
    (resp : list TxResults.TxResultState) :
  TxResults.reconcile address transactions txEffs = JS.Ok resp ->
  map TxResults.txId resp
  ≡ₚ map (fun txEff => TxResults.getTransactionDigest (TxResults.certificate txEff))
       (filter (fun txEff => ~ Specification.multiOperation txEff) txEffs)
  /\ length resp
     = length (filter (fun txEff => ~ Specification.multiOperation txEff) txEffs)
  /\ (length resp <= length txEffs)%nat.
Proof.
  unfold TxResults.reconcile.
  destruct (JS.mapM (TxResults.toTxResult address transactions) txEffs)
    as [ys|e] eqn:Hm; simpl; [|discriminate].
  intros [= <-].
  assert (Hperm : map TxResults.txId
                    (TxResults.Array_sort
                       (fun a b => TxResults.seq b - TxResults.seq a) (omap id ys))
                  ≡ₚ map (fun txEff => TxResults.getTransactionDigest
                                         (TxResults.certificate txEff))
                       (filter (fun txEff => ~ Specification.multiOperation txEff)
                          txEffs)).
  { rewrite <- (mapM_toTxResult_digests address transactions txEffs ys Hm).
    apply fmap_Permutation, Array_sort_Permutation. }
  split; [exact Hperm|].
  assert (Hlen : length (TxResults.Array_sort
                           (fun a b => TxResults.seq b - TxResults.seq a)
                           (omap id ys))
                 = length (filter (fun txEff => ~ Specification.multiOperation txEff)
                             txEffs)).
  { apply Permutation_length in Hperm. rewrite !length_map in Hperm. exact Hperm. }
  split; [exact Hlen|]. rewrite Hlen. apply length_filter.
Qed.

(** The sample references: two single-operation effects, two entries. *)
Lemma reconcile_one_entry_per_effect_witness :
  map TxResults.txId Examples.entries ≡ₚ ["d3"; "d2"]
  /\ length Examples.entries = 2%nat.
Proof.
  assert (H : TxResults.reconcile "0xa" Examples.references
                (map Examples.effect_of
                   (TxResults.deduplicate (Some Examples.references)))
              = JS.Ok Examples.entries) by (vm_compute; reflexivity).
  pose proof (reconcile_one_entry_per_effect _ _ _ _ H) as (Hp & Hl & _).
  split; [exact Hp|exact Hl].
Defined.

(** X17. Every entry of a fulfilled payload: [isSender] tells whether its
    sender is the queried address; its recipient is never the empty string
    and its amount never 0 (a missing one is omitted); and its sequence
    number and digest are a reference listed by the node. *)
Theorem payload_entries (api : TxResults.Api) (a : string)
    (payload : list TxResults.TxResultState) (entry : TxResults.TxResultState) :
  TxResults.getTransactionsByAddress api (Some a) = JS.Ok payload ->
  entry ∈ payload ->
  TxResults.isSender entry = Some (bool_decide (TxResults.from entry = a))
  /\ TxResults.to entry <> Some ""
  /\ TxResults.amount entry <> Some 0
  /\ exists raw,
       TxResults.getTransactionsForAddress api a = JS.Ok raw
       /\ Some (TxResults.seq entry, TxResults.txId entry) ∈ raw.
Proof.
  intros Hok Hin.
  apply getTransactionsByAddress_Ok in Hok
    as [->|(a' & raw & txEffs & resp & [= <-] & Hraw & _ & Hresp & Henrich)];
    [apply elem_of_nil in Hin as []|].
  destruct (enrich_origin _ _ _ _ Henrich Hin) as (itm & Hitm & Hentry').
  destruct (reconcile_origin a (omap id raw) txEffs resp itm Hresp Hitm)
    as (txEff & _ & _ & Hentry).
  pose proof (enrichEntry_frame _ _ _ Hentry') as Hf.
  injection Hf as Hto Hseq Hid _ _ _ Hfrom Hamount _ _ Hsender _ _.
  pose proof (toTxResult_fields a (omap id raw) txEff itm Hentry)
    as (Hs & _ & Ht & Ham & _).
  apply toTxResult_Some in Hentry as (_ & Href & _).
  rewrite Hto, Hseq, Hid, Hfrom, Hamount, Hsender.
  split; [exact Hs|]. split; [exact Ht|]. split; [exact Ham|].
  exists raw. split; [exact Hraw|].
  apply list_elem_of_omap in Href as (o & Ho & Hid'). simpl in Hid'. subst o. exact Ho.
Qed.

(** The first entry of the sample payload. *)
Lemma payload_entries_witness :
  exists payload entry,
    TxResults.getTransactionsByAddress Examples.node (Some "0xa") = JS.Ok payload
    /\ entry ∈ payload
    /\ TxResults.isSender entry = Some (bool_decide (TxResults.from entry = "0xa")).
Proof.
  destruct getTransactionsByAddress_total_example as [payload Hpayload].
  destruct payload as [|entry payload]; [vm_compute in Hpayload; discriminate|].
  exists (entry :: payload), entry. split; [exact Hpayload|]. split; [left|].
  exact (proj1 (payload_entries Examples.node "0xa" (entry :: payload) entry
                  Hpayload (list_elem_of_here _ _))).
Defined.

(** A node that cannot be reached. *)
Lemma cycle_network_failure_witness :
  let offline :=
    {| TxResults.getTransactionsForAddress := fun _ => JS.Throw Examples.failure_error;
       TxResults.getTransactionWithEffectsBatch := fun _ => JS.Ok [];
       TxResults.batchFetchObject := fun _ => None |} in
  TxResults.cycle offline (Some "0xa") TxResults.initialState
  = {| TxResults.loading := false;
       TxResults.st_error := Some Examples.failure_error;
       TxResults.latestTx := []; TxResults.recentAddresses := [] |}.
Proof.
  cbv zeta. apply cycle_network_failure; [discriminate|]. left. reflexivity.
Defined.

(** A node that answers with the effect of a digest it never listed. *)
Lemma cycle_orphaned_effect_witness :
  let confused :=
    {| TxResults.getTransactionsForAddress := fun _ => JS.Ok [Some (1, "d1")];
       TxResults.getTransactionWithEffectsBatch :=
         fun _ => JS.Ok [Examples.effect_of "d9"];
       TxResults.batchFetchObject := fun _ => None |} in
  exists err,
    JS.err_name err = Some "TypeError"
    /\ TxResults.getTransactionsByAddress confused (Some "0xa") = JS.Throw err
    /\ TxResults.cycle confused (Some "0xa") TxResults.initialState
       = {| TxResults.loading := false; TxResults.st_error := Some err;
            TxResults.latestTx := []; TxResults.recentAddresses := [] |}.
Proof.
  cbv zeta.
  apply (cycle_orphaned_effect _ "0xa" TxResults.initialState [Some (1, "d1")]
           [Examples.effect_of "d9"] (Examples.effect_of "d9")).
  - discriminate.
  - reflexivity.
  - reflexivity.
  - discriminate.
  - left.
  - apply (bool_decide_unpack _). vm_compute. exact I.
Defined.

Section EnrichMoreFacts.
Import JS TxResults.

Lemma findObject_enrichEntry (o o' : option (list SuiObject))
    (itm itm' : TxResultState) :
  enrichEntry o' itm = Ok itm' -> findObject o itm' = findObject o itm.
Proof.
  intros H. unfold findObject.
  pose proof (enrichEntry_frame o' itm itm' H) as Hf.
  injection Hf as _ _ _ _ _ _ _ _ _ Hid _ _ _. rewrite Hid. reflexivity.
Qed.

Lemma enrichEntry_idempotent (o : option (list SuiObject))
    (itm itm' : TxResultState) :
  enrichEntry o itm = Ok itm' -> enrichEntry o itm' = Ok itm'.
Proof.
  intros H. unfold enrichEntry at 1.
  rewrite (findObject_enrichEntry o o itm itm' H).
  revert H. unfold enrichEntry. destruct (findObject o itm) as [obj|].
  - destruct (data_fields obj); [|discriminate]. intros [= <-]. reflexivity.
  - intros [= <-]. reflexivity.
Qed.

Lemma enrichEntry_unmatched (o : option (list SuiObject)) (itm : TxResultState) :
  findObject o itm = None -> enrichEntry o itm = Ok itm.
Proof. intros H. unfold enrichEntry. rewrite H. reflexivity. Qed.

Lemma mapM_Ok_id {A} (f : A -> Result A) (xs : list A) :
  (forall x, x ∈ xs -> f x = Ok x) -> mapM f xs = Ok xs.
Proof.
  induction xs as [|x xs IH]; intros Hf; [reflexivity|].
  simpl. rewrite (Hf x) by left. simpl.
  rewrite IH by (intros y Hy; apply Hf; right; exact Hy). reflexivity.
Qed.

Lemma omap_objectId_enrich (o : option (list SuiObject))
    (resp resp' : list TxResultState) :
  enrich o resp = Ok resp' -> omap objectId resp' = omap objectId resp.
Proof.
  intros H. apply enrich_Ok in H.
  induction H as [|itm itm' resp resp' Hitm _ IH]; [reflexivity|].
  pose proof (enrichEntry_frame o itm itm' Hitm) as Hf.
  injection Hf as _ _ _ _ _ _ _ _ _ Hid _ _ _.
  change (omap objectId (itm' :: resp'))
    with (match objectId itm' with
          | Some y => y :: omap objectId resp'
          | None => omap objectId resp'
          end).
  change (omap objectId (itm :: resp))
    with (match objectId itm with
          | Some y => y :: omap objectId resp
          | None => omap objectId resp
          end).
  rewrite Hid, IH. reflexivity.
Qed.

Lemma enrich_again (o : option (list SuiObject)) (resp resp' : list TxResultState) :
  enrich o resp = Ok resp' ->
  enrich o resp' = Ok resp' /\ objectIDs_of resp' = objectIDs_of resp.
Proof.
  intros H. split.
  - apply enrich_Ok in H. unfold enrich.
    induction H as [|itm itm' resp resp' Hitm _ IH]; [reflexivity|].
    simpl. rewrite (enrichEntry_idempotent o itm itm' Hitm). simpl.
    rewrite IH. reflexivity.
  - unfold objectIDs_of. rewrite (omap_objectId_enrich o resp resp' H).
    reflexivity.
Qed.

Lemma enrich_None (resp : list TxResultState) : enrich None resp = Ok resp.
Proof.
  apply mapM_Ok_id. intros itm _. apply enrichEntry_unmatched. reflexivity.
Qed.

(** The enrichment throws nothing but the [TypeError] of an object without
    [fields]. *)
Lemma enrich_Throw (o : option (list SuiObject)) (resp : list TxResultState)
    (e : SerializedError) :
  enrich o resp = Throw e -> e = TypeError.
Proof.
  unfold enrich. induction resp as [|itm resp IH]; [discriminate|]. simpl.
  destruct (enrichEntry o itm) as [itm'|e0] eqn:Hitm; simpl.
  - destruct (mapM (enrichEntry o) resp) as [resp'|e1]; simpl; [discriminate|].
    intros [= <-]. apply IH. reflexivity.
  - intros [= <-]. revert Hitm. unfold enrichEntry.
    destruct (findObject o itm) as [obj|]; [|discriminate].
    destruct (data_fields obj); [discriminate|]. congruence.
Qed.

End EnrichMoreFacts.

(** X18. The enrichment can be repeated: enriching what an enrichment
    returned, with the same objects, returns it again, so the enrichment
    followed by itself is the enrichment; without payload, or with an empty
    one, the entries are returned as they are; and the enrichment does not
    change the object ids to fetch. *)
Theorem enrich_idempotent (txObjects : option (list TxResults.SuiObject))
    (resp : list TxResults.TxResultState) :
  JS.bind (TxResults.enrich txObjects resp) (TxResults.enrich txObjects)
  = TxResults.enrich txObjects resp
  /\ TxResults.enrich None resp = JS.Ok resp
  /\ TxResults.enrich (Some []) resp = JS.Ok resp
  /\ (forall resp',
        TxResults.enrich txObjects resp = JS.Ok resp' ->
        TxResults.enrich txObjects resp' = JS.Ok resp'
        /\ TxResults.objectIDs_of resp' = TxResults.objectIDs_of resp).
Proof.
  split; [|split; [|split]].
  - destruct (TxResults.enrich txObjects resp) as [resp'|e] eqn:H; [|reflexivity].
    simpl. apply (enrich_again txObjects resp resp' H).
  - apply enrich_None.
  - apply mapM_Ok_id. intros itm _. apply enrichEntry_unmatched.
    unfold TxResults.findObject.
    destruct (TxResults.objectId itm) as [oid|]; [|reflexivity].
    destruct (TxResults.truthy_string oid); reflexivity.
  - apply enrich_again.
Qed.

(** The sample entries enriched with the sample object, twice. *)
Lemma enrich_idempotent_witness :
  exists resp',
    TxResults.enrich (Some [Examples.nft]) Examples.entries = JS.Ok resp'
    /\ TxResults.enrich (Some [Examples.nft]) resp' = JS.Ok resp'
    /\ TxResults.objectIDs_of resp' = ["0x77"].
Proof.
  destruct (TxResults.enrich (Some [Examples.nft]) Examples.entries)
    as [resp'|e] eqn:H; [|vm_compute in H; discriminate].
  destruct (proj2 (proj2 (proj2
              (enrich_idempotent (Some [Examples.nft]) Examples.entries)))
              resp' H) as [Hagain Hids].
  exists resp'. split; [reflexivity|]. split; [exact Hagain|].
  rewrite Hids. vm_compute. reflexivity.
Defined.

(** X19. A cycle replaces the whole store: its final state does not depend on
    the state before; it is never loading; it has no error exactly when the
    thunk returned a payload, which is then listed; and it has the error
    [e] exactly when the thunk threw [e]. *)
Theorem cycle_replaces_state (api : TxResults.Api) (address : option string)
    (s1 s2 : TxResults.TransactionManualState) :
  TxResults.cycle api address s1 = TxResults.cycle api address s2
  /\ TxResults.loading (TxResults.cycle api address s1) = false
  /\ (TxResults.st_error (TxResults.cycle api address s1) = None
      <-> exists payload,
            TxResults.getTransactionsByAddress api address = JS.Ok payload
            /\ TxResults.latestTx (TxResults.cycle api address s1) = payload)
  /\ (forall e,
        TxResults.st_error (TxResults.cycle api address s1) = Some e
        <-> TxResults.getTransactionsByAddress api address = JS.Throw e).
Proof.
  unfold TxResults.cycle.
  destruct (TxResults.getTransactionsByAddress api address) as [payload|e]; simpl.
  - repeat split; try discriminate.
    + intros _. exists payload. split; reflexivity.
  - repeat split; try discriminate; try congruence.
    intros (payload & H & _). discriminate.
Qed.

Section SortMoreFacts.
Import TxResults.
Context {A : Type} (key : A -> Z).

Lemma Array_sort_sorted_id (l : list A) :
  StronglySorted (fun x y => key y <= key x) l ->
  Array_sort (fun a b => key b - key a) l = l.
Proof.
  induction 1 as [|a l Hs IH Ha]; [reflexivity|].
  simpl. rewrite IH. destruct l as [|b l]; [reflexivity|]. simpl.
  apply Forall_cons in Ha as [Hb _].
  destruct (Z.leb_spec (key b - key a) 0); [reflexivity|lia].
Qed.

End SortMoreFacts.

(** X20. The sort of the entries, whatever their sequence numbers: the result
    is a permutation of the entries in descending order (equal numbers
    allowed); entries already in descending order are returned unchanged,
    ties included; and sorting twice changes nothing more. *)
Theorem Array_sort_by_seq (entries : list TxResults.TxResultState) :
  let sorted :=
    TxResults.Array_sort (fun a b => TxResults.seq b - TxResults.seq a) entries in
  sorted ≡ₚ entries
  /\ StronglySorted (fun a b => TxResults.seq b <= TxResults.seq a) sorted
  /\ (StronglySorted (fun a b => TxResults.seq b <= TxResults.seq a) entries ->
      sorted = entries)
  /\ TxResults.Array_sort (fun a b => TxResults.seq b - TxResults.seq a) sorted
     = sorted.
Proof.
  cbv zeta.
  split; [apply Array_sort_Permutation|].
  split; [apply (Array_sort_sorted TxResults.seq)|].
  split; [apply (Array_sort_sorted_id TxResults.seq)|].
  apply (Array_sort_sorted_id TxResults.seq), (Array_sort_sorted TxResults.seq).
Qed.

(** The sample entries are in descending order already. *)
Lemma Array_sort_by_seq_witness :
  TxResults.Array_sort (fun a b => TxResults.seq b - TxResults.seq a)
    Examples.entries = Examples.entries.
Proof.
  apply (proj1 (proj2 (proj2 (Array_sort_by_seq Examples.entries)))).
  vm_compute. repeat constructor; discriminate.
Defined.

(** X21. The receipt page looks an entry up by digest: what it finds is a
    listed entry with that digest; when no two listed entries share a
    digest, every listed entry is found by its own digest; a digest that is
    not listed, or no digest, finds nothing. *)
Theorem txnItem_by_digest (txResults : list TxResults.TxResultState) :
  (forall d txn, Views.txnItem (Some d) txResults = Some txn ->
                 TxResults.txId txn = d /\ txn ∈ txResults)
  /\ (forall txn, NoDup (map TxResults.txId txResults) -> txn ∈ txResults ->
                  Views.txnItem (Some (TxResults.txId txn)) txResults = Some txn)
  /\ (forall d, (forall txn, txn ∈ txResults -> TxResults.txId txn <> d) ->
                Views.txnItem (Some d) txResults = None)
  /\ Views.txnItem None txResults = None.
Proof.
  unfold Views.txnItem. split; [|split; [|split; [|reflexivity]]].
  - intros d txn H.
    destruct (filter _ txResults) as [|t ts] eqn:Hf; [discriminate|].
    injection H as ->.
    assert (Hin : txn ∈ filter (fun txn0 => TxResults.txId txn0 = d) txResults)
      by (rewrite Hf; left).
    apply list_elem_of_filter in Hin. exact Hin.
  - intros txn Hnd Hin.
    induction txResults as [|t ts IH]; [apply elem_of_nil in Hin as []|].
    simpl in Hnd. apply NoDup_cons in Hnd as [Hnotin Hnd].
    destruct (decide (TxResults.txId t = TxResults.txId txn)) as [Heq|Hne].
    + rewrite filter_cons_True by exact Heq. simpl. f_equal.
      apply elem_of_cons in Hin as [->|Hin]; [reflexivity|].
      exfalso. apply Hnotin. rewrite Heq.
      apply (list_elem_of_fmap_2 TxResults.txId), Hin.
    + rewrite filter_cons_False by exact Hne.
      apply elem_of_cons in Hin as [->|Hin]; [congruence|].
      apply IH; assumption.
  - intros d Hno.
    destruct (filter _ txResults) as [|t ts] eqn:Hf; [reflexivity|].
    assert (Hin : t ∈ filter (fun txn0 => TxResults.txId txn0 = d) txResults)
      by (rewrite Hf; left).
    apply list_elem_of_filter in Hin as [Hd Hin]. exfalso. exact (Hno t Hin Hd).
Qed.

(** The entry of the digest [d2] among the sample entries. *)
Lemma txnItem_by_digest_witness :
  exists txn,
    Views.txnItem (Some "d2") Examples.entries = Some txn
    /\ TxResults.seq txn = 2.
Proof.
  assert (Hnd : NoDup (map TxResults.txId Examples.entries))
    by (apply (bool_decide_unpack _); vm_compute; exact I).
  destruct (Examples.entries !! 1%nat) as [txn|] eqn:Hl;
    [|vm_compute in Hl; discriminate].
  assert (Hin : txn ∈ Examples.entries)
    by (eapply list_elem_of_lookup_2; exact Hl).
  assert (Hid : TxResults.txId txn = "d2" /\ TxResults.seq txn = 2)
    by (vm_compute in Hl; injection Hl as <-; split; reflexivity).
  exists txn. split; [|exact (proj2 Hid)].
  rewrite <- (proj1 Hid).
  exact (proj1 (proj2 (txnItem_by_digest Examples.entries)) txn Hnd Hin).
Defined.

(** X22. The receipt page and the store: after a [rejected] action, and after
    a [fulfilled] one with no entry, the page navigates away, whatever the
    digest in the address; with a non-empty digest it stays while loading
    and once entries are listed; without digest it navigates away while
    loading. *)
Theorem receipt_page_navigation (state : TxResults.TransactionManualState)
    (txDigest : option string) :
  (forall e, Views.navigatesAway txDigest
               (TxResults.reducer state (TxResults.rejected e)) = true)
  /\ Views.navigatesAway txDigest
       (TxResults.reducer state (TxResults.fulfilled [])) = true
  /\ (forall d, txDigest = Some d -> d <> "" ->
        Views.navigatesAway txDigest
          (TxResults.reducer state TxResults.pending) = false
        /\ forall payload, payload <> [] ->
             Views.navigatesAway txDigest
               (TxResults.reducer state (TxResults.fulfilled payload)) = false)
  /\ (txDigest = None \/ txDigest = Some "" ->
      Views.navigatesAway txDigest
        (TxResults.reducer state TxResults.pending) = true).
Proof.
  unfold Views.navigatesAway. split; [|split; [|split]].
  - intros e. simpl. apply orb_true_r.
  - simpl. apply orb_true_r.
  - intros d -> Hd. apply truthy_string_iff in Hd. rewrite Hd.
    split; [reflexivity|]. intros payload Hp. simpl.
    destruct payload; [congruence|reflexivity].
  - intros [->| ->]; reflexivity.
Qed.

(** The page for the digest [d2] while the first cycle is loading. *)
Lemma receipt_page_navigation_witness :
  Views.navigatesAway (Some "d2")
    (TxResults.reducer TxResults.initialState TxResults.pending) = false.
Proof.
  apply (proj1 (proj2 (proj2 (receipt_page_navigation TxResults.initialState
                                (Some "d2")))) "d2" eq_refl).
  discriminate.
Defined.

(** X23. The amount on the transaction card of a freshly reconciled entry,
    once enriched: without amount and without fetched object it is the gas
    used; with an amount and without fetched object it is the amount; and
    for an entry that is not a call it is the amount, or else the gas used,
    whatever the fetched object.  Without fetched object the enrichment
    returns the entry as it is. *)
Theorem cardAmount_fallback (address : string) (transactions : list (Z * string))
    (txEff : TxResults.TransactionEffectsResponse)
    (txObjects : option (list TxResults.SuiObject))
    (entry entry' : TxResults.TxResultState) :
  TxResults.toTxResult address transactions txEff = JS.Ok (Some entry) ->
  TxResults.enrichEntry txObjects entry = JS.Ok entry' ->
  let shown := Views.cardAmount entry' in
  (TxResults.amount entry = None ->
   TxResults.findObject txObjects entry = None ->
   shown = TxResults.getTotalGasUsed txEff)
  /\ (forall a, TxResults.amount entry = Some a ->
        TxResults.findObject txObjects entry = None ->
        shown = a)
  /\ (Views.transferType entry <> Views.Call_type ->
      shown = Views.or_number (TxResults.amount entry)
                (TxResults.getTotalGasUsed txEff))
  /\ (TxResults.findObject txObjects entry = None -> entry' = entry).
Proof.
  intros Hentry Henrich. cbv zeta.
  pose proof (toTxResult_fields _ _ _ _ Hentry) as (_ & _ & _ & Ham & Hgas & _).
  assert (Hbal : TxResults.balance entry = None).
  { revert Hentry. unfold TxResults.toTxResult.
    destruct (filter _ transactions) as [|[seq0 digest] rest]; [discriminate|].
    destruct (1 <? _); [discriminate|].
    destruct (TxResults.getTransactions (TxResults.certificate txEff));
      [discriminate|]. intros [= <-]. reflexivity. }
  assert (Hgas0 : Views.or_number (Some (TxResults.txGas entry)) 0
                  = TxResults.getTotalGasUsed txEff).
  { rewrite Hgas. unfold Views.or_number.
    destruct (Z.eqb_spec (TxResults.getTotalGasUsed txEff) 0); congruence. }
  pose proof (enrichEntry_frame txObjects entry entry' Henrich) as Hframe.
  injection Hframe as _ _ _ _ Hfg Hkind _ Hfa _ _ Hsender _ _.
  assert (Htype : Views.transferType entry' = Views.transferType entry).
  { unfold Views.transferType. rewrite Hkind, Hsender. reflexivity. }
  assert (Hsame : TxResults.findObject txObjects entry = None -> entry' = entry).
  { intros Hfind. rewrite (enrichEntry_unmatched _ _ Hfind) in Henrich.
    congruence. }
  split; [|split; [|split; [|exact Hsame]]].
  - intros Hnone Hfind. rewrite (Hsame Hfind). unfold Views.cardAmount.
    rewrite Hnone, Hbal. destruct (Views.transferType entry); exact Hgas0.
  - intros a Ha Hfind. rewrite (Hsame Hfind). unfold Views.cardAmount.
    rewrite Ha, Hbal.
    assert (Hnz : (a =? 0) = false) by (apply Z.eqb_neq; congruence).
    destruct (Views.transferType entry); simpl; rewrite Hnz; reflexivity.
  - intros Hcall. unfold Views.cardAmount. rewrite Htype, Hfa, Hfg.
    destruct (Views.transferType entry); [congruence| |];
      rewrite Hgas0; reflexivity.
Qed.

Section IpfsFacts.

Lemma prefix_ipfs_https (rest : string) :
  String.prefix "ipfs://" ("https://ipfs.io/ipfs/" +:+ rest) = false.
Proof. reflexivity. Qed.

End IpfsFacts.

(** X24. The image address of the cards: an [ipfs://] address is moved to the
    gateway [https://ipfs.io/ipfs/]; any other address is kept; the result
    never starts with [ipfs://]; the rewriting is idempotent; and an image is
    shown only for a non-empty address. *)
Theorem replace_ipfs_gateway (url : string) :
  (forall rest, url = "ipfs://" +:+ rest ->
                Views.replace_ipfs url = "https://ipfs.io/ipfs/" +:+ rest)
  /\ (String.prefix "ipfs://" url = false -> Views.replace_ipfs url = url)
  /\ String.prefix "ipfs://" (Views.replace_ipfs url) = false
  /\ Views.replace_ipfs (Views.replace_ipfs url) = Views.replace_ipfs url
  /\ (forall txn shown,
        TxResults.url txn = Some url ->
        Views.imgUrl txn = Some shown ->
        url <> "" /\ shown = Views.replace_ipfs url
        /\ String.prefix "ipfs://" shown = false).
Proof.
  assert (Hno : String.prefix "ipfs://" (Views.replace_ipfs url) = false).
  { unfold Views.replace_ipfs.
    destruct (String.prefix "ipfs://" url) eqn:Hp; [reflexivity|exact Hp]. }
  split; [|split; [|split; [exact Hno|split]]].
  - intros rest ->. unfold Views.replace_ipfs. rewrite prefix_append.
    change 7%nat with (String.length "ipfs://").
    rewrite (substring_from_append "ipfs://" rest). reflexivity.
  - intros Hp. unfold Views.replace_ipfs. rewrite Hp. reflexivity.
  - unfold Views.replace_ipfs at 1. rewrite Hno. reflexivity.
  - intros txn shown Hurl. unfold Views.imgUrl. rewrite Hurl.
    destruct url as [|c url']; [discriminate|]. simpl TxResults.truthy_string.
    cbv iota. intros [= <-]. split; [discriminate|]. split; [reflexivity|exact Hno].
Qed.

(** An [ipfs] address and an [https] one. *)
Lemma replace_ipfs_gateway_witness :
  Views.replace_ipfs "ipfs://example" = "https://ipfs.io/ipfs/example"
  /\ Views.replace_ipfs "https://example.com/a.png" = "https://example.com/a.png".
Proof.
  split.
  - exact (proj1 (replace_ipfs_gateway "ipfs://example") "example" eq_refl).
  - exact (proj1 (proj2 (replace_ipfs_gateway "https://example.com/a.png")) eq_refl).
Defined.

(** The sample call shows its gas, 10. *)
Lemma cardAmount_fallback_witness :
  exists entry,
    TxResults.toTxResult "0xa" Examples.references (Examples.effect_of "d2")
    = JS.Ok (Some entry)
    /\ TxResults.enrichEntry None entry = JS.Ok entry
    /\ Views.cardAmount entry = 10.
Proof.
  destruct (TxResults.toTxResult "0xa" Examples.references (Examples.effect_of "d2"))
    as [[entry|]|e] eqn:He; try (vm_compute in He; discriminate).
  exists entry. split; [reflexivity|]. split; [reflexivity|].
  apply (proj1 (cardAmount_fallback "0xa" Examples.references
                  (Examples.effect_of "d2") None entry entry He eq_refl)).
  - vm_compute in He. injection He as <-. reflexivity.
  - reflexivity.
Defined.

(** The argument of the native coin type. *)
Lemma getCoinTypeArg_round_trip_witness :
  Coin.getCoinTypeArg (Some "0x2::coin::Coin<0x2::sui::SUI>") = Some "0x2::sui::SUI".
Proof.
  apply (proj1 getCoinTypeArg_round_trip "0x2::sui::SUI"); [discriminate|reflexivity].
Defined.

(** The recipient [0xb] of the sample entries is a recent address. *)
Lemma recentAddresses_of_fulfilled_witness :
  "0xb" ∈ TxResults.recentAddresses
            (TxResults.reducer TxResults.initialState
               (TxResults.fulfilled Examples.entries)).
Proof.
  apply (proj2 (proj2 (recentAddresses_of_fulfilled TxResults.initialState
                         Examples.entries)) "0xb").
  split; [discriminate|].
  destruct (Examples.entries !! 0%nat) as [tx|] eqn:Hl;
    [|vm_compute in Hl; discriminate].
  exists tx. split; [eapply list_elem_of_lookup_2; exact Hl|].
  left. vm_compute in Hl. injection Hl as <-. reflexivity.
Defined.

(** X25. The fetch of the objects fails the thunk only through an object
    without [fields]: compared with the thunk whose object fetch is rejected
    (an undefined payload), the thunk throws every error that one throws;
    and where that one returns a payload, the thunk returns a payload with
    the same digests, the same sequence numbers and the same length, or
    throws a [TypeError]. *)
Theorem object_fetch_failure (api : TxResults.Api) (address : option string) :
  let api0 :=
    {| TxResults.getTransactionsForAddress := TxResults.getTransactionsForAddress api;
       TxResults.getTransactionWithEffectsBatch :=
         TxResults.getTransactionWithEffectsBatch api;
       TxResults.batchFetchObject := fun _ => None |} in
  (forall e, TxResults.getTransactionsByAddress api0 address = JS.Throw e ->
             TxResults.getTransactionsByAddress api address = JS.Throw e)
  /\ (forall payload0,
        TxResults.getTransactionsByAddress api0 address = JS.Ok payload0 ->
        (exists payload,
           TxResults.getTransactionsByAddress api address = JS.Ok payload
           /\ map TxResults.txId payload = map TxResults.txId payload0
           /\ map TxResults.seq payload = map TxResults.seq payload0
           /\ length payload = length payload0)
        \/ TxResults.getTransactionsByAddress api address = JS.Throw JS.TypeError)
  /\ (forall payload,
        TxResults.getTransactionsByAddress api address = JS.Ok payload ->
        exists payload0,
          TxResults.getTransactionsByAddress api0 address = JS.Ok payload0
          /\ map TxResults.txId payload = map TxResults.txId payload0
          /\ map TxResults.seq payload = map TxResults.seq payload0
          /\ length payload = length payload0).
Proof.
  cbv zeta. unfold TxResults.getTransactionsByAddress.
  destruct address as [a|].
  2:{ split; [congruence|]. split; intros p [= <-]; [left|]; exists [];
        repeat split. }
  destruct (TxResults.truthy_string a); cbn [negb].
  2:{ split; [congruence|]. split; intros p [= <-]; [left|]; exists [];
        repeat split. }
  cbn [TxResults.getTransactionsForAddress TxResults.getTransactionWithEffectsBatch
       TxResults.batchFetchObject].
  destruct (TxResults.getTransactionsForAddress api a) as [raw|e0]; cbn [JS.bind].
  2:{ split; [congruence|]. split; discriminate. }
  destruct (omap id raw) as [|t ts].
  { split; [congruence|]. split; intros p [= <-]; [left|]; exists [];
      repeat split. }
  destruct (TxResults.getTransactionWithEffectsBatch api _) as [txEffs|e0];
    cbn [JS.bind].
  2:{ split; [congruence|]. split; discriminate. }
  destruct (TxResults.reconcile a (t :: ts) txEffs) as [resp|e0]; cbn [JS.bind].
  2:{ split; [congruence|]. split; discriminate. }
  rewrite (enrich_None resp). cbn [JS.bind].
  destruct (TxResults.enrich _ resp) as [payload|e0] eqn:Henrich; cbn [JS.bind].
  - pose proof (map_txId_enrich _ _ _ Henrich) as Hids.
    pose proof (map_seq_enrich _ _ _ Henrich) as Hseqs.
    assert (Hlen : length payload = length resp).
    { rewrite <- (length_map TxResults.txId payload), Hids. apply length_map. }
    split; [congruence|].
    split; intros p [= <-]; [left|]; eexists; repeat split; assumption.
  - apply enrich_Throw in Henrich. subst e0.
    split; [congruence|]. split; [intros p _; right; reflexivity|discriminate].
Qed.

(** The sample node, whose object has [fields], and the node whose object
    has none. *)
Lemma object_fetch_failure_witness :
  (exists payload,
     TxResults.getTransactionsByAddress Examples.node (Some "0xa") = JS.Ok payload
     /\ map TxResults.txId payload = ["d3"; "d2"])
  /\ TxResults.getTransactionsByAddress Examples.packaged (Some "0xa")
     = JS.Throw JS.TypeError.
Proof.
  assert (H0 : TxResults.getTransactionsByAddress
                 {| TxResults.getTransactionsForAddress :=
                      TxResults.getTransactionsForAddress Examples.node;
                    TxResults.getTransactionWithEffectsBatch :=
                      TxResults.getTransactionWithEffectsBatch Examples.node;
                    TxResults.batchFetchObject := fun _ => None |} (Some "0xa")
               = JS.Ok Examples.entries) by (vm_compute; reflexivity).
  split.
  - destruct (proj1 (proj2 (object_fetch_failure Examples.node (Some "0xa")))
                _ H0) as [(payload & Hok & Hids & _)|Hthrow].
    + exists payload. split; [exact Hok|]. rewrite Hids. vm_compute. reflexivity.
    + vm_compute in Hthrow. discriminate.
  - destruct (proj1 (proj2 (object_fetch_failure Examples.packaged (Some "0xa")))
                _ H0) as [(payload & Hok & _)|Hthrow]; [|exact Hthrow].
    vm_compute in Hok. discriminate.
Defined.
